(** * EPGStation: the recording event bus and the drop-check tool

    A shallow embedding of
    - [src/model/event/RecordingEvent.ts]: the publish/subscribe bus of the
      recording lifecycle, built on Node's [events.EventEmitter];
    - [src/DropCheck.ts]: the standalone drop-check command (argument
      handling, the [run] procedure with its two failure handlers, the
      progress-reporting transform stream, the result printer and the
      webhook post), together with the earlier variant of the same file
      that reads [process.argv] directly;
    - the REST handler that protects a recording from automatic deletion;
    - the continuity rules of the stream integrity analyzer, which the
      sources only call.

    JavaScript numbers that hold counters and byte counts are integers far
    below 2^53, where the arithmetic of doubles is exact; they are modelled
    as [Z].  The 32-bit conversion of the bitwise operators is written out. *)

From stdpp Require Import gmap strings list fin_maps pretty.
From Stdlib Require Import Ascii ZArith Lia Sorted.

Open Scope string_scope.
Open Scope list_scope.
Open Scope Z_scope.

(** ** JavaScript preliminaries *)

Module JS.

(** A thrown value or rejection reason, identified by its message. *)
Definition error := string.

(** A promise that has settled. *)
Inductive promise (A : Type) : Type :=
| Fulfilled (a : A)
| Rejected (e : error).
Arguments Fulfilled {A} a.
Arguments Rejected {A} e.

(** [p.catch(h)] for a handler that returns normally. *)
Definition promise_catch {A} (p : promise A) (h : error -> A) : promise A :=
  match p with
  | Fulfilled a => Fulfilled a
  | Rejected e => Fulfilled (h e)
  end.

(** ToInt32 of an integral number: reduction modulo 2^32 into
    the signed range. *)
Definition ToInt32 (z : Z) : Z :=
  let m := z mod 2 ^ 32 in
  if m <? 2 ^ 31 then m else m - 2 ^ 32.

(** The binary operator [a | b]. *)
Definition bitor (a b : Z) : Z := Z.lor (ToInt32 a) (ToInt32 b).

(** ToBoolean of a number. *)
Definition truthy (z : Z) : bool := negb (z =? 0).

(** String conversion of an integral number, as done by [+] with a string
    and by template literals. *)
Definition Number_toString (z : Z) : string := pretty z.

(** [Array.prototype.join]. *)
Fixpoint join (sep : string) (l : list string) : string :=
  match l with
  | [] => ""
  | [s] => s
  | s :: rest => s +:+ sep +:+ join sep rest
  end.

End JS.

(** ** Node's EventEmitter

  The emitter keeps, per event name, the array of listeners in the order
  [on] added them.  [emit] calls them synchronously, one after the other,
  with the arguments it was given; an exception thrown by a listener leaves
  [emit] at once, so later listeners are not called.  A value returned by a
  listener (a promise, for an async function) is ignored; what the body of
  such a function still has to do runs afterwards, from jobs of the
  microtask queue, each at its own moment. *)

Module EventEmitter.
Section Emitter.

Context {V E : Type}.

(** What one call did: the effects performed before the call returned
    ([now]), the effects left to later jobs ([later]), each with the moment
    at which its job runs, and how the call completed.  [later] lists the
    pending effects in the order in which they were left behind, which need
    not be the order in which they happen. *)
Record outcome (A : Type) : Type := Outcome {
  now : list E;
  later : list (nat * E);
  result : A + JS.error
}.
Arguments Outcome {A}.
Arguments now {A}.
Arguments later {A}.
Arguments result {A}.

Definition listener : Type := list V -> outcome unit.

Definition on (name : string) (l : listener)
    (events : gmap string (list listener)) : gmap string (list listener) :=
  <[name := default [] (events !! name) ++ [l]]> events.

(** The loop of [emit] over the listeners of one event. *)
Fixpoint call_all (ls : list listener) (args : list V) : outcome unit :=
  match ls with
  | [] => Outcome [] [] (inl tt)
  | l :: rest =>
      let o := l args in
      match result o with
      | inr e => o
      | inl _ =>
          let o' := call_all rest args in
          Outcome (now o ++ now o') (later o ++ later o') (result o')
      end
  end.

(** [emit] answers whether the event had listeners. *)
Definition emit (name : string) (args : list V)
    (events : gmap string (list listener)) : outcome bool :=
  let ls := default [] (events !! name) in
  let o := call_all ls args in
  Outcome (now o) (later o)
    match result o with
    | inl _ => inl (match ls with [] => false | _ :: _ => true end)
    | inr e => inr e
    end.

(** The pending effects in the order in which they happen: by moment, and
    for one moment in the order in which they were left behind, as the
    microtask queue serves its jobs first in, first out. *)
Fixpoint insert_by_moment {X : Type} (x : nat * X) (l : list (nat * X))
    : list (nat * X) :=
  match l with
  | [] => [x]
  | y :: l' =>
      if (x.1 <=? y.1)%nat then x :: y :: l' else y :: insert_by_moment x l'
  end.

Definition by_moment {X : Type} (l : list (nat * X)) : list (nat * X) :=
  foldr insert_by_moment [] l.

Definition late {A : Type} (o : outcome A) : list E :=
  (by_moment (later o)).*2.

End Emitter.

Arguments outcome : clear implicits.
Arguments Outcome {E A}.
Arguments now {E A}.
Arguments later {E A}.
Arguments result {E A}.
Arguments late {E A}.
Arguments listener : clear implicits.

End EventEmitter.

(** ** RecordingEvent.ts *)

Module RecordingEvent.

Import EventEmitter.

(** The entities the events carry, reduced to their identity. *)
Record Reserve : Type := { reserve_id : nat }.
Record Recorded : Type := { recorded_id : nat }.
Record RelayProgram : Type := { programId : nat; parentReserve : Reserve }.

(** Values passed from [emit] to the listeners. *)
Inductive value : Type :=
| VReserve (r : Reserve)
| VRecorded (r : Recorded)
| VNull
| VBoolean (b : bool)
| VPrograms (ps : list RelayProgram)
| VUndefined.

(** What a callback handed to one of the [set...] methods does when it is
    called: it returns a plain value, throws, or returns a promise that is
    fulfilled or rejected.  A rejection comes with its moment: 0 for a
    promise that is already rejected when the callback returns, and the
    rank of the job that rejects it otherwise. *)
Inductive behaviour : Type :=
| Returns
| Throws (e : JS.error)
| Resolves
| Rejects (moment : nat) (e : JS.error).

Record callback : Type := {
  cb_id : nat;
  cb_call : list value -> behaviour
}.

(** Observable effects: a callback is entered with some arguments, or
    [this.log.system.error(err)] is called (the logger is taken not to
    throw). *)
Inductive effect : Type :=
| Invoke (cb : nat) (args : list value)
| LogError (e : JS.error).

Abbreviation listener := (EventEmitter.listener value effect).
Abbreviation outcome := (EventEmitter.outcome effect).

(** Binding of the first [n] parameters of an arrow function: missing
    arguments are [undefined], surplus ones are dropped. *)
Definition params (n : nat) (args : list value) : list value :=
  take n (args ++ replicate n VUndefined).

(** *** Function bodies

    How the body of a listener went: what it did before the listener
    returned, what it did afterwards from later jobs, and how it ended.  An
    exception is raised either before the first suspension of the body, or
    later, at the moment an awaited promise is rejected. *)
Inductive ending : Type :=
| Completes
| ThrowsNow (e : JS.error)
| ThrowsLater (moment : nat) (e : JS.error).

Record execution : Type := Execution {
  before : list effect;
  after : list (nat * effect);
  ends : ending
}.

(** [callback(p1, ..., pn)]: a rejected promise is a value like another. *)
Definition call (cb : callback) (ps : list value) : execution :=
  Execution [Invoke (cb_id cb) ps] []
    match cb_call cb ps with
    | Throws e => ThrowsNow e
    | _ => Completes
    end.

(** [await callback(p1, ..., pn)]: the call is made at once; the body is
    then suspended, and resumes from a job that runs once the promise is
    settled, with an exception when it was rejected. *)
Definition await_call (cb : callback) (ps : list value) : execution :=
  Execution [Invoke (cb_id cb) ps] []
    match cb_call cb ps with
    | Throws e => ThrowsNow e
    | Rejects moment e => ThrowsLater moment e
    | Returns | Resolves => Completes
    end.

(** [try { body } catch (err) { handler }], for a handler that performs
    some effects and completes: it runs where, and when, the exception is
    raised. *)
Definition try_catch (body : execution) (handler : JS.error -> list effect) : execution :=
  match ends body with
  | Completes => body
  | ThrowsNow e => Execution (before body ++ handler e) (after body) Completes
  | ThrowsLater moment e =>
      Execution (before body) (after body ++ (pair moment <$> handler e)) Completes
  end.

(** An arrow function with this body: an exception raised before it returns
    reaches its caller. *)
Definition arrow (body : list value -> execution) : listener :=
  fun args =>
    let x := body args in
    Outcome (before x) (after x)
      match ends x with
      | ThrowsNow e => inr e
      | _ => inl tt
      end.

(** An async arrow function with this body: the caller gets a promise in
    every case; an exception of the body rejects that promise. *)
Definition async_arrow (body : list value -> execution) : listener :=
  fun args =>
    let x := body args in
    Outcome (before x) (after x) (inl tt).

(** A method of type [void] whose body is the one statement [x;]: the
    value of [x] is dropped, an exception of [x] leaves the method. *)
Definition statement {A : Type} (x : EventEmitter.outcome effect A) : outcome unit :=
  Outcome (now x) (later x)
    match result x with
    | inl _ => inl tt
    | inr e => inr e
    end.

(** [this.log.system.error(err)] *)
Definition log_system_error (err : JS.error) : list effect := [LogError err].

(** The listener every [set...] method builds:
    [async (p1, ..., pn) => { try { await callback(p1, ..., pn); }
                              catch (err) { this.log.system.error(err); } }]. *)
Definition wrap (n : nat) (cb : callback) : listener :=
  async_arrow (fun args =>
    try_catch (await_call cb (params n args)) log_system_error).

(** [namespace RecordingEvent] *)
Definition START_PREP_RRECORDING_EVENT : string := "StartPrepRecording".
Definition CANCEL_PREP_RRECORDING_EVENT : string := "CancelPrepRecording".
Definition PREP_RECORDING_FAILED_EVENT : string := "PrepRecordingFailed".
Definition START_RECORDING_EVENT : string := "StartRecordingEvent".
Definition RECORDING_FAILED_EVENT : string := "RecordingFailedEvent".
Definition RECORDING_RETRY_OVER_EVENT : string := "RecordingRetryOverEvent".
Definition FINISH_RECORDING_EVENT : string := "FinishRecordingEvent".
Definition EVENT_RELAY_EVENT : string := "EventRelayEvent".

(** The object: its private [emitter]. *)
Record t : Type := { emitter : gmap string (list listener) }.

Definition new : t := {| emitter := ∅ |}.

(** *** Emission

    The [emit...] methods are of type [void]: the boolean of [emit] is
    dropped. *)

Definition emitStartPrepRecording (reserve : Reserve) (self : t) : outcome unit :=
  statement (emit START_PREP_RRECORDING_EVENT [VReserve reserve] (emitter self)).

Definition emitCancelPrepRecording (reserve : Reserve) (self : t) : outcome unit :=
  statement (emit CANCEL_PREP_RRECORDING_EVENT [VReserve reserve] (emitter self)).

Definition emitPrepRecordingFailed (reserve : Reserve) (self : t) : outcome unit :=
  statement (emit PREP_RECORDING_FAILED_EVENT [VReserve reserve] (emitter self)).

Definition emitStartRecording (reserve : Reserve) (recorded : Recorded)
    (self : t) : outcome unit :=
  statement (emit START_RECORDING_EVENT [VReserve reserve; VRecorded recorded] (emitter self)).

Definition emitRecordingFailed (reserve : Reserve) (recorded : option Recorded)
    (self : t) : outcome unit :=
  statement (emit RECORDING_FAILED_EVENT
    [VReserve reserve; from_option VRecorded VNull recorded] (emitter self)).

Definition emitRecordingRetryOver (reserve : Reserve) (self : t) : outcome unit :=
  statement (emit RECORDING_RETRY_OVER_EVENT [VReserve reserve] (emitter self)).

Definition emitFinishRecording (reserve : Reserve) (recorded : Recorded)
    (isNeedDeleteReservation : bool) (self : t) : outcome unit :=
  statement (emit FINISH_RECORDING_EVENT
    [VReserve reserve; VRecorded recorded; VBoolean isNeedDeleteReservation]
    (emitter self)).

Definition emitEventRelay (programs : list RelayProgram) (self : t) : outcome unit :=
  statement (emit EVENT_RELAY_EVENT [VPrograms programs] (emitter self)).

(** *** Registration *)

Definition setStartPrepRecording (cb : callback) (self : t) : t :=
  {| emitter := on START_PREP_RRECORDING_EVENT (wrap 1 cb) (emitter self) |}.

Definition setCancelPrepRecording (cb : callback) (self : t) : t :=
  {| emitter := on CANCEL_PREP_RRECORDING_EVENT (wrap 1 cb) (emitter self) |}.

Definition setPrepRecordingFailed (cb : callback) (self : t) : t :=
  {| emitter := on PREP_RECORDING_FAILED_EVENT (wrap 1 cb) (emitter self) |}.

Definition setStartRecording (cb : callback) (self : t) : t :=
  {| emitter := on START_RECORDING_EVENT (wrap 2 cb) (emitter self) |}.

Definition setRecordingFailed (cb : callback) (self : t) : t :=
  {| emitter := on RECORDING_FAILED_EVENT (wrap 2 cb) (emitter self) |}.

Definition setRecordingRetryOver (cb : callback) (self : t) : t :=
  {| emitter := on RECORDING_RETRY_OVER_EVENT (wrap 1 cb) (emitter self) |}.

Definition setFinishRecording (cb : callback) (self : t) : t :=
  {| emitter := on FINISH_RECORDING_EVENT (wrap 3 cb) (emitter self) |}.

Definition setEventRelay (cb : callback) (self : t) : t :=
  {| emitter := on EVENT_RELAY_EVENT (wrap 1 cb) (emitter self) |}.

(** *** Event kinds, registration histories and emissions

    The [emitter] is private, so a bus is always the result of some
    sequence of [set...] calls on a new object. *)

Inductive kind : Type :=
| StartPrep | CancelPrep | PrepFailed | Start
| Failed | RetryOver | Finish | EventRelay.

#[export] Instance kind_eq_dec : EqDecision kind.
Proof. solve_decision. Defined.

Definition kinds : list kind :=
  [StartPrep; CancelPrep; PrepFailed; Start; Failed; RetryOver; Finish; EventRelay].

Definition event_name (k : kind) : string :=
  match k with
  | StartPrep => START_PREP_RRECORDING_EVENT
  | CancelPrep => CANCEL_PREP_RRECORDING_EVENT
  | PrepFailed => PREP_RECORDING_FAILED_EVENT
  | Start => START_RECORDING_EVENT
  | Failed => RECORDING_FAILED_EVENT
  | RetryOver => RECORDING_RETRY_OVER_EVENT
  | Finish => FINISH_RECORDING_EVENT
  | EventRelay => EVENT_RELAY_EVENT
  end.

(** Number of parameters of the listener registered for each kind. *)
Definition arity (k : kind) : nat :=
  match k with
  | Start | Failed => 2%nat
  | Finish => 3%nat
  | _ => 1%nat
  end.

Definition register (k : kind) (cb : callback) (self : t) : t :=
  match k with
  | StartPrep => setStartPrepRecording cb self
  | CancelPrep => setCancelPrepRecording cb self
  | PrepFailed => setPrepRecordingFailed cb self
  | Start => setStartRecording cb self
  | Failed => setRecordingFailed cb self
  | RetryOver => setRecordingRetryOver cb self
  | Finish => setFinishRecording cb self
  | EventRelay => setEventRelay cb self
  end.

(** The bus after the registrations of [history], oldest first. *)
Definition registered (history : list (kind * callback)) : t :=
  foldl (fun self r => register r.1 r.2 self) new history.

(** The callbacks of [history] registered for [k], oldest first. *)
Definition callbacks_for (k : kind) (history : list (kind * callback)) : list callback :=
  omap (fun r => if decide (r.1 = k) then Some r.2 else None) history.

(** One call of an [emit...] method. *)
Inductive emission : Type :=
| EmitStartPrepRecording (reserve : Reserve)
| EmitCancelPrepRecording (reserve : Reserve)
| EmitPrepRecordingFailed (reserve : Reserve)
| EmitStartRecording (reserve : Reserve) (recorded : Recorded)
| EmitRecordingFailed (reserve : Reserve) (recorded : option Recorded)
| EmitRecordingRetryOver (reserve : Reserve)
| EmitFinishRecording (reserve : Reserve) (recorded : Recorded)
    (isNeedDeleteReservation : bool)
| EmitEventRelay (programs : list RelayProgram).

Definition perform (m : emission) (self : t) : outcome unit :=
  match m with
  | EmitStartPrepRecording r => emitStartPrepRecording r self
  | EmitCancelPrepRecording r => emitCancelPrepRecording r self
  | EmitPrepRecordingFailed r => emitPrepRecordingFailed r self
  | EmitStartRecording r rec => emitStartRecording r rec self
  | EmitRecordingFailed r rec => emitRecordingFailed r rec self
  | EmitRecordingRetryOver r => emitRecordingRetryOver r self
  | EmitFinishRecording r rec b => emitFinishRecording r rec b self
  | EmitEventRelay ps => emitEventRelay ps self
  end.

Definition emission_kind (m : emission) : kind :=
  match m with
  | EmitStartPrepRecording _ => StartPrep
  | EmitCancelPrepRecording _ => CancelPrep
  | EmitPrepRecordingFailed _ => PrepFailed
  | EmitStartRecording _ _ => Start
  | EmitRecordingFailed _ _ => Failed
  | EmitRecordingRetryOver _ => RetryOver
  | EmitFinishRecording _ _ _ => Finish
  | EmitEventRelay _ => EventRelay
  end.

(** The arguments the caller of the [emit...] method supplied. *)
Definition emitted_args (m : emission) : list value :=
  match m with
  | EmitStartPrepRecording r
  | EmitCancelPrepRecording r
  | EmitPrepRecordingFailed r
  | EmitRecordingRetryOver r => [VReserve r]
  | EmitStartRecording r rec => [VReserve r; VRecorded rec]
  | EmitRecordingFailed r rec => [VReserve r; from_option VRecorded VNull rec]
  | EmitFinishRecording r rec b => [VReserve r; VRecorded rec; VBoolean b]
  | EmitEventRelay ps => [VPrograms ps]
  end.

(** Reading a trace: the calls of callbacks, and the logged errors. *)
Definition invocations (tr : list effect) : list (nat * list value) :=
  omap (fun x => match x with Invoke i a => Some (i, a) | LogError _ => None end) tr.

Definition logged (tr : list effect) : list JS.error :=
  omap (fun x => match x with LogError e => Some e | Invoke _ _ => None end) tr.

(** How one wrapped callback contributes to an emission with [args]. *)
Definition sync_part (args : list value) (cb : callback) : list effect :=
  Invoke (cb_id cb) args ::
  match cb_call cb args with Throws e => [LogError e] | _ => [] end.

Definition async_part (args : list value) (cb : callback) : list (nat * effect) :=
  match cb_call cb args with
  | Rejects moment e => [(moment, LogError e)]
  | _ => []
  end.

(** The failures of a row of callbacks called with [args]: the exceptions
    thrown during the call, and the rejections of the returned promises,
    without and with their moments. *)
Definition thrown (args : list value) (cb : callback) : option JS.error :=
  match cb_call cb args with Throws e => Some e | _ => None end.

Definition rejected (args : list value) (cb : callback) : option JS.error :=
  match cb_call cb args with Rejects _ e => Some e | _ => None end.

Definition rejected_at (args : list value) (cb : callback) : option (nat * JS.error) :=
  match cb_call cb args with Rejects moment e => Some (moment, e) | _ => None end.

(** A listener that is not wrapped, [(p1, ..., pn) => callback(p1, ..., pn)]:
    it lets the exception of its callback escape.  Only used to contrast
    with [wrap]. *)
Definition bare (n : nat) (cb : callback) : listener :=
  arrow (fun args => call cb (params n args)).

End RecordingEvent.

(** ** DropCheck.ts *)

Module DropCheck.

(** One entry of [aribts.Result]: the counters of a pid. *)
Record PidInfo : Type := { error : Z; drop : Z; scrambling : Z }.

(** [aribts.Result], an object keyed by pid. *)
Abbreviation Result := (gmap string PidInfo).

(** The body handed to [JSON.stringify] in [_postToSlack]. *)
Record Mrkdwn : Type := { mrkdwn_type : string; mrkdwn_text : string }.
Record Block : Type := { block_type : string; block_text : Mrkdwn }.
Record Payload : Type := { text : string; blocks : list Block }.

Record RequestOptions : Type := {
  method : string;
  headers : list (string * string)
}.

Definition chunk : Type := list Byte.byte.

(** Calls that reach the outside of the class. *)
Inductive effect : Type :=
| ConsoleLog (line : string)
| ConsoleError (line : string)
| ConsoleErrorValue (err : JS.error)
| ProcessExit (code : Z)
| UnhandledRejection (err : JS.error)
| LoggerInitialize
| CreateReadStream (path : string)
| StatSync (path : string)
| ProgressStart (total startValue : Z)
| ProgressUpdate (value : Z)
| ProgressStop
| Push (c : chunk)
| ReadablePipe
| ReadableOn (event : string)
| ReadableClose
| TransformEnd
| TransformUnpipe
| CheckerStart (logDirPath srcFilePath : string)
| CheckerStop
| CheckerGetResult
| HttpsRequest (url : string) (options : RequestOptions)
| RequestWrite (body : Payload)
| RequestEnd.

(** *** Control flow

    A computation performs effects and then returns a value, throws, or
    ends the process through [process.exit], after which nothing runs. *)
Inductive res (A : Type) : Type :=
| Ok (a : A)
| Throw (e : JS.error)
| Exit (code : Z).
Arguments Ok {A} a.
Arguments Throw {A} e.
Arguments Exit {A} code.

Definition M (A : Type) : Type := list effect * res A.

#[export] Instance M_ret : MRet M := fun A a => ([], Ok a).

#[export] Instance M_bind : MBind M := fun A B f m =>
  match m.2 with
  | Ok a => (m.1 ++ (f a).1, (f a).2)
  | Throw e => (m.1, Throw e)
  | Exit c => (m.1, Exit c)
  end.

Definition tell (x : effect) : M unit := ([x], Ok tt).

Definition throw {A} (e : JS.error) : M A := ([], Throw e).

(** [try { m } catch (err) { h err }]; [process.exit] is not caught. *)
Definition try_catch {A} (m : M A) (h : JS.error -> M A) : M A :=
  match m.2 with
  | Throw e => (m.1 ++ (h e).1, (h e).2)
  | _ => m
  end.

(** [await p] *)
Definition await {A} (p : JS.promise A) : M A :=
  match p with
  | JS.Fulfilled a => mret a
  | JS.Rejected e => throw e
  end.

(** A promise that is neither awaited nor given a handler: when it is
    rejected, the runtime is left with an unhandled rejection. *)
Definition forget {A} (p : JS.promise A) : M unit :=
  match p with
  | JS.Fulfilled _ => mret tt
  | JS.Rejected e => tell (UnhandledRejection e)
  end.

Definition console_log (line : string) : M unit := tell (ConsoleLog line).
Definition console_error (line : string) : M unit := tell (ConsoleError line).
Definition process_exit {A} (code : Z) : M A := ([ProcessExit code], Exit code).

(** The rejections left unhandled. *)
Definition unhandled (tr : list effect) : list JS.error :=
  omap (fun x => match x with UnhandledRejection e => Some e | _ => None end) tr.

(** *** The end of the process

    [install()] of source-map-support, the first statement of the file,
    puts a handler on uncaught exceptions: it writes the error to the error
    channel and calls [process.exit(1)].  (For a thrown value without a
    stack the handler steps aside and the runtime does the same by
    itself.) *)
Definition uncaughtException (err : JS.error) : M unit :=
  tell (ConsoleErrorValue err);;
  process_exit 1.

(** What [install()] means for the statements [rest] that follow it, when
    [rest] is a call of an async function that nothing awaits.  An
    exception that leaves [rest] rejects the promise of the call; the
    runtime raises a rejection that nothing handles as an uncaught
    exception (the default of Node since version 15), once the call is
    over.  After [process.exit] nothing runs
    any more: when [rest] itself ends the process while a rejection is
    still pending, the status is that of [rest], which is 1 as well. *)
Definition install (rest : M unit) : M unit :=
  let m := try_catch rest uncaughtException in
  match unhandled m.1 with
  | [] => m
  | err :: _ => m;; uncaughtException err
  end.

(** The exit status of the process in which [m] is all that runs after
    [install()]: the argument of [process.exit], and 0 when the process
    ends without such a call, as nothing sets another status. *)
Definition exit_status (m : M unit) : Z :=
  match (install m).2 with
  | Exit c => c
  | _ => 0
  end.

(** *** The surroundings of one run *)

(** Which call settles the promise awaited first in [run]: [resolve()]
    from the ['end'] handler of the read stream, [reject(err)] from its
    ['error'] handler, or [reject(err)] from the [catch] of
    [checker.start(...)].  A promise settles once; calls after the first
    change nothing. *)
Inductive settlement : Type :=
| ReadEnd
| ReadError (err : JS.error)
| StartRejected (err : JS.error).

Record Env : Type := {
  path_dirname : string -> string;
  fs_statSync_size : string -> Z + JS.error;
  settled_by : settlement;
  checker_stop_result : JS.promise unit;
  checker_getResult_result : JS.promise Result
}.

(** *** The class *)

Record t : Type := {
  srcM2tsPath : string;
  dstLogDirPath : option string;
  isPostToSlack : bool
}.

(** The object [minimist] returns for the options of the constructor:
    [input] and [output] are strings when given ([-i], [--input], [-o],
    [--output]) and [undefined] otherwise, [slack] is a boolean. *)
Record Args : Type := {
  input : option string;
  output : option string;
  slack : bool
}.

Definition MSG_NO_INPUT : string := "入力ファイルが指定されていません".
Definition MSG_USAGE_1 : string := "使用方法: npm run dropcheck INPUT.m2ts".
Definition MSG_USAGE_2 : string :=
  "       or npm run dropcheck -- INPUT.m2ts -- -o LOG_OUT_DIR".
Definition MSG_START : string := "ドロップチェック開始".
Definition MSG_FAILED : string := "ドロップチェックに失敗しました".
Definition MSG_DONE : string := "ドロップチェック完了".
Definition MSG_RELEASE_FAILED : string :=
  "解放処理またはドロップ情報の読み込みに失敗しました".

(** [typeof args.input === 'undefined' || args.input === ''] *)
Definition input_missing (args : Args) : bool :=
  match input args with
  | None => true
  | Some s => bool_decide (s = "")
  end.

Definition constructor (args : Args) : M t :=
  (if input_missing args then
     console_error MSG_NO_INPUT;;
     console_error MSG_USAGE_1;;
     console_error MSG_USAGE_2;;
     process_exit 1
   else mret tt);;
  mret {| srcM2tsPath := default "" (input args);
          dstLogDirPath := output args;
          isPostToSlack := slack args |}.

(** [a || b] on an optional string: [undefined] and [''] are falsy. *)
Definition or_else (a : option string) (b : string) : string :=
  match a with
  | Some s => if bool_decide (s = "") then b else s
  | None => b
  end.

(** *** The transform stream of the progress bar *)

Record TransformState : Type := {
  size : Z;
  bytesRead : Z;
  count : Z
}.

Definition _createTransformStream (env : Env) (self : t) : M TransformState :=
  tell (StatSync (srcM2tsPath self));;
  size ← match fs_statSync_size env (srcM2tsPath self) with
         | inl n => mret n
         | inr e => throw e
         end;
  tell (ProgressStart size 0);;
  mret {| size := size; bytesRead := 0; count := 0 |}.

(** The [transform] callback, called by the stream for each chunk. *)
Definition transform (c : chunk) (st : TransformState) : list effect * TransformState :=
  let bytesRead := bytesRead st + Z.of_nat (length c) in
  let count := count st + 1 in
  if count =? 100 then
    ([ProgressUpdate bytesRead; Push c],
     {| size := size st; bytesRead := bytesRead; count := 0 |})
  else
    ([Push c], {| size := size st; bytesRead := bytesRead; count := count |}).

(** The [flush] callback, called by the stream when its input has ended. *)
Definition flush (st : TransformState) : list effect :=
  [ProgressUpdate (size st); ProgressStop].

(** The stream calls [transform] on the chunks in the order they arrive. *)
Fixpoint pump (chunks : list chunk) (st : TransformState) : list effect * TransformState :=
  match chunks with
  | [] => ([], st)
  | c :: rest =>
      let r := transform c st in
      let r' := pump rest r.2 in
      (r.1 ++ r'.1, r'.2)
  end.

(** *** Totals *)

(** The loop [for (const pid in dropResult) { error += ...; drop += ...;
    scrambling += ...; }] over the entries of the result. *)
Definition totals (dropResult : Result) : Z * Z * Z :=
  foldl (fun acc entry =>
           (acc.1.1 + error entry.2, acc.1.2 + drop entry.2, acc.2 + scrambling entry.2))
        (0, 0, 0) (map_to_list dropResult).

Definition _printDropResult (dropResult : Result) : M unit :=
  let '(error, drop, scrambling) := totals dropResult in
  console_log ("error      : " +:+ JS.Number_toString error);;
  console_log ("drop       : " +:+ JS.Number_toString drop);;
  console_log ("scrambling : " +:+ JS.Number_toString scrambling).

(** *** The webhook post *)

Definition SLACK_WEBHOOK_URL : string := "WEB_HOOK_URL_HERE".

(** The error of [new URL(input)] for an input that is not a URL. *)
Definition ERR_INVALID_URL : JS.error := "TypeError [ERR_INVALID_URL]: Invalid URL".

(** A string can only be parsed as a URL when it starts with a scheme: a
    letter, then letters, digits, [+], [-] and [.], then a colon. *)
Definition scheme_start (c : Ascii.ascii) : bool :=
  let n := Ascii.N_of_ascii c in
  ((65 <=? n) && (n <=? 90) || (97 <=? n) && (n <=? 122))%N.

Definition scheme_char (c : Ascii.ascii) : bool :=
  let n := Ascii.N_of_ascii c in
  scheme_start c || ((48 <=? n) && (n <=? 57) || (n =? 43) || (n =? 45) || (n =? 46))%N.

Fixpoint scheme_ends (s : string) : bool :=
  match s with
  | EmptyString => false
  | String c rest =>
      if Ascii.eqb c ":"%char then true
      else if scheme_char c then scheme_ends rest else false
  end.

Definition has_scheme (s : string) : bool :=
  match s with
  | EmptyString => false
  | String c rest => scheme_start c && scheme_ends rest
  end.

(** [https.request(url, options)] with a string for [url]: the string is
    parsed by [new URL(url)] before anything else is done, and the
    exception of the parser leaves the call.  A string with a scheme is
    taken to be a URL, and the request object to be made. *)
Definition https_request (url : string) (options : RequestOptions) : M unit :=
  tell (HttpsRequest url options);;
  if has_scheme url then mret tt else throw ERR_INVALID_URL.

Definition section (text : string) : Block :=
  {| block_type := "section";
     block_text := {| mrkdwn_type := "mrkdwn"; mrkdwn_text := text |} |}.

Definition hasProblem (error drop scrambling : Z) : Z :=
  JS.bitor (JS.bitor error drop) scrambling.

Definition slack_payload (srcM2tsPath : string) (error drop scrambling : Z) : Payload :=
  let hasProblem := JS.truthy (hasProblem error drop scrambling) in
  let texts := if hasProblem then ["<!here>"] else [] in
  let resultHead := if hasProblem then ":warning: " else ":white_check_mark: " in
  let resultMrkdwn :=
    JS.join " "
      [ if error =? 0 then "E:0" else "*E:" +:+ JS.Number_toString error +:+ "*";
        if drop =? 0 then "D:0" else "*D:" +:+ JS.Number_toString drop +:+ "*";
        if scrambling =? 0 then "S:0"
        else "*S:" +:+ JS.Number_toString scrambling +:+ "*" ] in
  let texts := texts ++ [resultHead +:+ resultMrkdwn] in
  let texts := texts ++ [">" +:+ srcM2tsPath] in
  let textHead := if hasProblem then "[!] " else "" in
  {| text := textHead +:+ srcM2tsPath; blocks := section <$> texts |}.

(** The payload is built, then the request is asked for, written and
    ended. *)
Definition _postToSlack (self : t) (dropResult : Result) : M unit :=
  let '(error, drop, scrambling) := totals dropResult in
  let payload := slack_payload (srcM2tsPath self) error drop scrambling in
  let requestOptions :=
    {| method := "POST"; headers := [("Content-Type", "application/json")] |} in
  https_request SLACK_WEBHOOK_URL requestOptions;;
  tell (RequestWrite payload);;
  tell RequestEnd.

(** *** run *)

Definition checker_stop (env : Env) : M (JS.promise unit) :=
  tell CheckerStop;; mret (checker_stop_result env).

Definition checker_getResult (env : Env) : M (JS.promise Result) :=
  tell CheckerGetResult;; mret (checker_getResult_result env).

(** The statements shared by the two failure handlers, after the two
    [console.error] calls. *)
Definition release_and_exit (env : Env) : M unit :=
  p ← checker_stop env;
  await (JS.promise_catch p (fun _ => tt));;
  tell TransformEnd;;
  tell TransformUnpipe;;
  tell ReadableClose;;
  process_exit 1.

(** The promise made by [new Promise((resolve, reject) => ...)]: its
    executor installs the two handlers on the read stream and starts the
    checker. *)
Definition analysis (env : Env) (self : t) : M (JS.promise unit) :=
  tell (ReadableOn "end");;
  tell (ReadableOn "error");;
  tell (CheckerStart
          (or_else (dstLogDirPath self) (path_dirname env (srcM2tsPath self)))
          (srcM2tsPath self));;
  mret match settled_by env with
       | ReadEnd => JS.Fulfilled tt
       | ReadError err => JS.Rejected err
       | StartRejected err => JS.Rejected err
       end.

(** The callbacks of the transform stream run from the stream machinery
    while the promise of [analysis] is pending; they are described by
    [pump] and [flush] and leave no mark here. *)
Definition run (env : Env) (self : t) : M unit :=
  console_log MSG_START;;
  tell LoggerInitialize;;
  tell (CreateReadStream (srcM2tsPath self));;
  _ ← _createTransformStream env self;
  tell ReadablePipe;;
  p ← analysis env self;
  try_catch (await p)
    (fun err =>
       console_error MSG_FAILED;;
       tell (ConsoleErrorValue err);;
       release_and_exit env);;
  try_catch
    (q ← checker_getResult env;
     dropResult ← await q;
     stopping ← checker_stop env;
     forget stopping;;
     tell TransformEnd;;
     tell TransformUnpipe;;
     tell ReadableClose;;
     console_log MSG_DONE;;
     _printDropResult dropResult;;
     if isPostToSlack self then _postToSlack self dropResult else mret tt)
    (fun err =>
       console_error MSG_RELEASE_FAILED;;
       tell (ConsoleErrorValue err);;
       release_and_exit env).

(** [new DropCheck().run()], the last statement of the file, by itself:
    an exception that leaves [run] stands for the rejection of the promise
    the call returns.  What becomes of that promise, and so how the process
    ends, is said by [script] below. *)
Definition main (env : Env) (args : Args) : M unit :=
  self ← constructor args;
  run env self.

(** The file as [node] runs it: [install()], then the setting up of the
    container, which is not observed here, then [new DropCheck().run()]. *)
Definition script (env : Env) (args : Args) : M unit :=
  install (main env args).

(** *** Reading a trace *)

(** The calls of [checker.start], with their two string arguments. *)
Definition starts (tr : list effect) : list (string * string) :=
  omap (fun x => match x with CheckerStart d s => Some (d, s) | _ => None end) tr.

(** The calls of [https.request]. *)
Definition requests (tr : list effect) : list (string * RequestOptions) :=
  omap (fun x => match x with HttpsRequest u o => Some (u, o) | _ => None end) tr.

(** The bodies written to requests. *)
Definition bodies (tr : list effect) : list Payload :=
  omap (fun x => match x with RequestWrite b => Some b | _ => None end) tr.

(** The calls on the progress bar. *)
Definition progress_reports (tr : list effect) : list effect :=
  omap (fun x => match x with
                 | ProgressStart _ _ | ProgressUpdate _ | ProgressStop => Some x
                 | _ => None
                 end) tr.

(** The chunks handed on by the transform stream. *)
Definition pushed (tr : list effect) : list chunk :=
  omap (fun x => match x with Push c => Some c | _ => None end) tr.

(** The lines written to the error channel. *)
Definition error_lines (tr : list effect) : list string :=
  omap (fun x => match x with ConsoleError l => Some l | _ => None end) tr.

(** All that is written to the error channel, lines and errors. *)
Definition stderr (tr : list effect) : list effect :=
  omap (fun x => match x with
                 | ConsoleError _ | ConsoleErrorValue _ => Some x
                 | _ => None
                 end) tr.

(** The calls of [process.exit]. *)
Definition exits (tr : list effect) : list Z :=
  omap (fun x => match x with ProcessExit c => Some c | _ => None end) tr.

(** The statements of [run] up to the point where the first promise is
    awaited, when the size of the input can be read. *)
Definition prologue (env : Env) (self : t) (n : Z) : list effect :=
  [ConsoleLog MSG_START; LoggerInitialize;
   CreateReadStream (srcM2tsPath self); StatSync (srcM2tsPath self);
   ProgressStart n 0; ReadablePipe; ReadableOn "end"; ReadableOn "error";
   CheckerStart
     (or_else (dstLogDirPath self) (path_dirname env (srcM2tsPath self)))
     (srcM2tsPath self)].

(** What either failure handler does after its first line. *)
Definition release (err : JS.error) : list effect :=
  [ConsoleErrorValue err; CheckerStop; TransformEnd; TransformUnpipe;
   ReadableClose; ProcessExit 1].

(** Total length of some chunks. *)
Definition bytes_of (chunks : list chunk) : Z :=
  foldr (fun c acc => Z.of_nat (length c) + acc) 0 chunks.

(** Sum of one counter over the entries of a result. *)
Definition sum_of (f : PidInfo -> Z) (dropResult : Result) : Z :=
  foldr (fun entry acc => f entry.2 + acc) 0 (map_to_list dropResult).

#[export] Instance Mrkdwn_eq_dec : EqDecision Mrkdwn.
Proof. solve_decision. Defined.

#[export] Instance Block_eq_dec : EqDecision Block.
Proof. solve_decision. Defined.

(** A message is marked as urgent by a here-mention block and by the
    prefix of its text. *)
Definition urgent (p : Payload) : bool :=
  bool_decide (section "<!here>" ∈ blocks p) && String.prefix "[!] " (text p).

End DropCheck.

(** ** The variant of DropCheck.ts that reads [process.argv]

  It differs from the file above in its constructor, and has neither the
  webhook option nor [_postToSlack]; the rest of [run] and the transform
  stream are the same text. *)

Module DropCheckArgv.

Import DropCheck.

Definition MSG_USAGE : string :=
  "使用方法: npm run dropcheck INPUT.m2ts [OUTPUT_DIR]".

(** [process.argv] holds the executable and the script first. *)
Definition constructor (argv : list string) : M DropCheck.t :=
  (if (length argv <? 3)%nat then
     console_error MSG_USAGE;;
     process_exit 1
   else mret tt);;
  mret {| srcM2tsPath := default "" (argv !! 2%nat);
          dstLogDirPath := argv !! 3%nat;
          isPostToSlack := false |}.

Definition main (env : Env) (argv : list string) : M unit :=
  self ← constructor argv;
  run env self.

(** [run] as the text of this variant has it: after the totals are printed
    nothing more is done. *)
Definition run (env : Env) (self : DropCheck.t) : M unit :=
  console_log MSG_START;;
  tell LoggerInitialize;;
  tell (CreateReadStream (srcM2tsPath self));;
  _ ← _createTransformStream env self;
  tell ReadablePipe;;
  p ← analysis env self;
  try_catch (await p)
    (fun err =>
       console_error MSG_FAILED;;
       tell (ConsoleErrorValue err);;
       release_and_exit env);;
  try_catch
    (q ← checker_getResult env;
     dropResult ← await q;
     stopping ← checker_stop env;
     forget stopping;;
     tell TransformEnd;;
     tell TransformUnpipe;;
     tell ReadableClose;;
     console_log MSG_DONE;;
     _printDropResult dropResult)
    (fun err =>
       console_error MSG_RELEASE_FAILED;;
       tell (ConsoleErrorValue err);;
       release_and_exit env).

(** [new DropCheck().run()] with the [run] of this variant. *)
Definition start (env : Env) (argv : list string) : M unit :=
  self ← constructor argv;
  run env self.

(** The variant as [node] runs it; it starts with [install()] too. *)
Definition script (env : Env) (argv : list string) : M unit :=
  install (start env argv).

End DropCheckArgv.

(** ** The stream integrity analyzer

  [DropCheck.ts] only starts the analyzer and reads its result; the
  analyzer itself is not among the sources.  Its continuity rules are
  taken from section 4.2 of the specification. *)

Module StreamIntegrity.

(** Modelled from the spec: the fields the analyzer extracts from a frame
    (the analyzer is missing from the sources): channel identifier,
    transport-error indicator, scrambling control, adaptation-field
    control, continuity counter, and the discontinuity indicator of the
    adaptation field. *)
Record Frame : Type := {
  pid : Z;
  transport_error_indicator : bool;
  scrambling_control : Z;
  adaptation_field_control : Z;
  continuity_counter : Z;
  discontinuity_indicator : bool
}.

(** Modelled from the spec: the per-channel state of the missing analyzer,
    the last observed continuity counter (none before the first
    observation) and the three cumulative counts. *)
Record ChannelIntegrityState : Type := {
  expected : option Z;
  error : Z;
  drop : Z;
  scrambling : Z
}.

(** Modelled from the spec: the state of a channel of the missing analyzer
    before its first frame. *)
Definition fresh : ChannelIntegrityState :=
  {| expected := None; error := 0; drop := 0; scrambling := 0 |}.

(** Modelled from the spec: the reserved null-packet identifier of the
    missing analyzer, all ones on 13 bits. *)
Definition NULL_PID : Z := Z.ones 13.

(** Modelled from the spec: in the missing analyzer a frame carries a
    payload when adaptation-field control says payload only (1) or
    adaptation field and payload (3). *)
Definition carries_payload (f : Frame) : bool :=
  Z.testbit (adaptation_field_control f) 0.

(** Modelled from the spec: in the missing analyzer the discontinuity
    indicator counts when the frame has an adaptation field. *)
Definition discontinuity (f : Frame) : bool :=
  Z.testbit (adaptation_field_control f) 1 && discontinuity_indicator f.

(** Modelled from the spec: the drops the missing analyzer charges when
    [observed] follows [expected]: none when the counter advanced by one,
    none for a duplicate, else one per unit of gap modulo 16. *)
Definition charge (expected observed : Z) : Z :=
  if observed =? (expected + 1) mod 16 then 0
  else if observed =? expected then 0
  else (observed - (expected + 1)) mod 16.

(** Modelled from the spec: continuity tracking of the missing analyzer
    for one frame of a channel.  Frames without payload are skipped; the
    first observation seeds the counter; an asserted discontinuity reseeds
    it without a charge; the counter is always reseeded to the observed
    value. *)
Definition track (f : Frame) (st : ChannelIntegrityState) : ChannelIntegrityState :=
  if carries_payload f then
    let observed := continuity_counter f in
    let charged :=
      match expected st with
      | None => 0
      | Some e => if discontinuity f then 0 else charge e observed
      end in
    {| expected := Some observed;
       error := error st;
       drop := drop st + charged;
       scrambling := scrambling st |}
  else st.

(** Modelled from the spec: what the missing analyzer does with one frame
    of a channel: count the transport error, count the scrambling, then
    track continuity. *)
Definition classify (f : Frame) (st : ChannelIntegrityState) : ChannelIntegrityState :=
  let st1 :=
    {| expected := expected st;
       error := if transport_error_indicator f then error st + 1 else error st;
       drop := drop st;
       scrambling :=
         if scrambling_control f =? 0 then scrambling st else scrambling st + 1 |} in
  track f st1.

(** Modelled from the spec: one frame through the table of the missing
    analyzer; null-packet frames are ignored entirely. *)
Definition step (table : gmap Z ChannelIntegrityState) (f : Frame)
    : gmap Z ChannelIntegrityState :=
  if pid f =? NULL_PID then table
  else <[pid f := classify f (default fresh (table !! pid f))]> table.

(** Modelled from the spec: the missing analyzer consumes the frames
    strictly in sequence. *)
Definition analyze (frames : list Frame) : gmap Z ChannelIntegrityState :=
  foldl step ∅ frames.

(** Modelled from the spec: the accumulated drop count of a channel in the
    result table of the missing analyzer. *)
Definition drop_count (table : gmap Z ChannelIntegrityState) (p : Z) : Z :=
  drop (default fresh (table !! p)).

(** A payload-only frame of channel [p] whose counter is [c] modulo 16,
    with no error, no scrambling and no discontinuity. *)
Definition payload_frame (p c : Z) : Frame :=
  {| pid := p;
     transport_error_indicator := false;
     scrambling_control := 0;
     adaptation_field_control := 1;
     continuity_counter := c mod 16;
     discontinuity_indicator := false |}.

(** [n] frames of channel [p] as transmitted one after the other, the
    first with counter [c]. *)
Fixpoint consecutive (p c : Z) (n : nat) : list Frame :=
  match n with
  | O => []
  | S n' => payload_frame p c :: consecutive p (c + 1) n'
  end.

(** The frames [c], ..., [c + n + k + m - 1] of channel [p] as received
    when the [k] frames after the first [n] are missing. *)
Definition with_gap (p c : Z) (n k m : nat) : list Frame :=
  consecutive p c n ++ consecutive p (c + Z.of_nat n + Z.of_nat k) m.

(** The frames [c], ..., [c + n + m - 1] of channel [p] as received when
    the last of the first [n] arrives twice. *)
Definition with_duplicate (p c : Z) (n m : nat) : list Frame :=
  consecutive p c n
  ++ payload_frame p (c + Z.of_nat n - 1)
  :: consecutive p (c + Z.of_nat n) m.

(** *** Streams as they are received

    The descriptions below speak of the frames themselves, by the values
    of their fields; they do not use the rules of the analyzer. *)


(** Adaptation-field control 1 is payload only, 3 is adaptation field and
    payload; 2 is adaptation field only and 0 is reserved. *)
Definition payload_bearing (f : Frame) : bool :=
  (adaptation_field_control f =? 1) || (adaptation_field_control f =? 3).

(** The payload-bearing frames of channel [p] in a stream, in the order of
    the stream. *)
Definition payload_frames_of (p : Z) (s : list Frame) : list Frame :=
  filter (fun f => pid f = p /\ payload_bearing f = true) s.



End StreamIntegrity.

(** ** The route that protects a recording

    [put] of the REST route [recorded/{recordedId}/protect]: it asks the
    recorded API model to protect the recording named by the path parameter
    and answers with JSON. *)

Module RecordedProtect.

(** Strings hold UTF-8.  The code of a byte. *)
Definition code (c : ascii) : Z := Z.of_N (N_of_ascii c).

(** [parseInt] first skips white space and line terminators: U+0009 to
    U+000D, U+0020, U+00A0, U+1680, U+2000 to U+200A, U+2028, U+2029,
    U+202F, U+205F, U+3000 and U+FEFF. *)
Fixpoint trim_start (s : string) : string :=
  match s with
  | String c rest =>
      if ((9 <=? code c) && (code c <=? 13)) || (code c =? 32) then trim_start rest
      else
        match rest with
        | String c1 rest1 =>
            if (code c =? 194) && (code c1 =? 160) then trim_start rest1
            else
              match rest1 with
              | String c2 rest2 =>
                  if (code c =? 225) && (code c1 =? 154) && (code c2 =? 128)
                     || (code c =? 226) && (code c1 =? 128)
                        && ((128 <=? code c2) && (code c2 <=? 138)
                            || (code c2 =? 168) || (code c2 =? 169)
                            || (code c2 =? 175))
                     || (code c =? 226) && (code c1 =? 129) && (code c2 =? 159)
                     || (code c =? 227) && (code c1 =? 128) && (code c2 =? 128)
                     || (code c =? 239) && (code c1 =? 187) && (code c2 =? 191)
                  then trim_start rest2
                  else s
              | EmptyString => s
              end
        | EmptyString => s
        end
  | EmptyString => s
  end.

(** The value of a decimal digit. *)
Definition digit_value (c : ascii) : option Z :=
  if (48 <=? code c) && (code c <=? 57) then Some (code c - 48) else None.

(** The value of the longest prefix of decimal digits, read from the left;
    [acc] is what was read so far, nothing at the start. *)
Fixpoint parse_digits (acc : option Z) (s : string) : option Z :=
  match s with
  | String c rest =>
      match digit_value c with
      | Some d => parse_digits (Some (10 * default 0 acc + d)) rest
      | None => acc
      end
  | EmptyString => acc
  end.

(** [parseInt(s, 10)]: white space is skipped, a sign is read, then the
    longest prefix of digits; without a digit the result is [NaN], which is
    [None] here.  Numbers are exact below 2^53 in magnitude; the negative
    zero is 0 here. *)
Definition parseInt10 (s : string) : option Z :=
  let t := trim_start s in
  let signed :=
    match t with
    | String c rest =>
        if code c =? 45 then (-1, rest)
        else if code c =? 43 then (1, rest)
        else (1, t)
    | EmptyString => (1, t)
    end in
  Z.mul signed.1 <$> parse_digits None signed.2.

(** Calls that leave the handler. *)
Inductive effect : Type :=
| ContainerGet (name : string)
| ChangeProtect (recordedId : option Z) (isProtect : bool)
| ResponseJSON (status : Z) (code : Z)
| ResponseServerError (message : string).

(** What [recordedApiModel.changeProtect] answers. *)
Record Env : Type := {
  changeProtect : option Z -> bool -> JS.promise unit
}.

(** [put]: [req.params.recordedId] is the only part of the request that is
    read.  An exception thrown by [changeProtect] and a rejection of its
    promise both end in the [catch] block; the message of an error is the
    error itself here.  The two response helpers are taken not to throw. *)
Definition put (env : Env) (recordedId : string) : list effect :=
  ContainerGet "IRecordedApiModel"
  :: ChangeProtect (parseInt10 recordedId) true
  :: match changeProtect env (parseInt10 recordedId) true with
     | JS.Fulfilled _ => [ResponseJSON 200 200]
     | JS.Rejected err => [ResponseServerError err]
     end.

(** The answers written. *)
Definition responses (tr : list effect) : list effect :=
  omap (fun x => match x with
                 | ResponseJSON _ _ | ResponseServerError _ => Some x
                 | _ => None
                 end) tr.

(** The calls of [changeProtect]. *)
Definition protect_calls (tr : list effect) : list (option Z * bool) :=
  omap (fun x => match x with ChangeProtect i b => Some (i, b) | _ => None end) tr.

End RecordedProtect.

(** ** Concrete surroundings, for the examples *)

Module Samples.

Import DropCheck.

Fixpoint strip_to_slash (reversed : list Ascii.ascii) : option (list Ascii.ascii) :=
  match reversed with
  | [] => None
  | c :: rest =>
      if Ascii.eqb c "/"%char then Some rest else strip_to_slash rest
  end.

(** The part of a path before its last slash, in the manner of
    [path.dirname] on simple POSIX paths. *)
Definition dirname (p : string) : string :=
  match strip_to_slash (rev (String.list_ascii_of_string p)) with
  | None => "."
  | Some [] => "/"
  | Some cs => String.string_of_list_ascii (rev cs)
  end.

(** A result with two channels. *)
Definition small_result : Result :=
  {[ "256" := {| error := 2; drop := 5; scrambling := 1 |};
     "272" := {| error := 0; drop := 0; scrambling := 0 |} ]}.

(** A result without any problem. *)
Definition clean_result : Result :=
  {[ "256" := {| error := 0; drop := 0; scrambling := 0 |} ]}.

(** A result whose error count is 2^32. *)
Definition huge_result : Result :=
  {[ "256" := {| error := 4294967296; drop := 0; scrambling := 0 |} ]}.

(** The analysis completes and yields [r]. *)
Definition env_completes (r : Result) : Env :=
  {| path_dirname := dirname;
     fs_statSync_size := fun _ => inl 1880;
     settled_by := ReadEnd;
     checker_stop_result := JS.Fulfilled tt;
     checker_getResult_result := JS.Fulfilled r |}.

(** The read stream fails, and so does [checker.stop]. *)
Definition env_read_error : Env :=
  {| path_dirname := dirname;
     fs_statSync_size := fun _ => inl 1880;
     settled_by := ReadError "EIO";
     checker_stop_result := JS.Rejected "not running";
     checker_getResult_result := JS.Rejected "not running" |}.

(** Starting the checker fails. *)
Definition env_start_rejected : Env :=
  {| path_dirname := dirname;
     fs_statSync_size := fun _ => inl 1880;
     settled_by := StartRejected "EACCES";
     checker_stop_result := JS.Fulfilled tt;
     checker_getResult_result := JS.Rejected "not running" |}.

(** The size of the input cannot be read. *)
Definition env_no_file : Env :=
  {| path_dirname := dirname;
     fs_statSync_size := fun _ => inr "ENOENT";
     settled_by := ReadError "ENOENT";
     checker_stop_result := JS.Fulfilled tt;
     checker_getResult_result := JS.Rejected "not running" |}.

Definition args_input_only : Args :=
  {| input := Some "/rec/a.m2ts"; output := None; slack := false |}.

Definition args_with_output : Args :=
  {| input := Some "/rec/a.m2ts"; output := Some "/log"; slack := false |}.

Definition args_with_slack : Args :=
  {| input := Some "/rec/a.m2ts"; output := None; slack := true |}.


Definition self : DropCheck.t :=
  {| srcM2tsPath := "/rec/a.m2ts"; dstLogDirPath := None; isPostToSlack := false |}.

(** 250 chunks of 3 bytes. *)
Definition chunks_250 : list chunk :=
  replicate 250 [Byte.x47; Byte.x00; Byte.x00].

(** Callbacks: one returns, one throws, two return a promise that is
    rejected, the second of them sooner than the first. *)
Definition cb_returns : RecordingEvent.callback :=
  {| RecordingEvent.cb_id := 1;
     RecordingEvent.cb_call := fun _ => RecordingEvent.Returns |}.

Definition cb_throws : RecordingEvent.callback :=
  {| RecordingEvent.cb_id := 2;
     RecordingEvent.cb_call := fun _ => RecordingEvent.Throws "boom" |}.

Definition cb_rejects : RecordingEvent.callback :=
  {| RecordingEvent.cb_id := 3;
     RecordingEvent.cb_call := fun _ => RecordingEvent.Rejects 5 "late" |}.

Definition cb_rejects_sooner : RecordingEvent.callback :=
  {| RecordingEvent.cb_id := 4;
     RecordingEvent.cb_call := fun _ => RecordingEvent.Rejects 2 "sooner" |}.

Definition reserve_7 : RecordingEvent.Reserve := {| RecordingEvent.reserve_id := 7 |}.

(** Frames of channel 256, numbered 14, 15, 0, ..., 4 by the sender; some
    carry an adaptation field besides the payload, one is flagged with a
    transport error and scrambled. *)
Definition sent_14 : StreamIntegrity.Frame := StreamIntegrity.Build_Frame 256 false 0 1 14 false.
Definition sent_15 : StreamIntegrity.Frame := StreamIntegrity.Build_Frame 256 true 2 3 15 false.
Definition sent_3 : StreamIntegrity.Frame := StreamIntegrity.Build_Frame 256 false 0 3 3 false.
Definition sent_4 : StreamIntegrity.Frame := StreamIntegrity.Build_Frame 256 false 1 1 4 false.

(** Frames that do not count for channel 256: a null packet, frames of
    channel 257 with a gap of their own, and a frame of channel 256 that
    has an adaptation field only, with the discontinuity indicator. *)
Definition null_packet : StreamIntegrity.Frame := StreamIntegrity.Build_Frame 8191 false 0 1 5 false.
Definition other_9 : StreamIntegrity.Frame := StreamIntegrity.Build_Frame 257 false 0 1 9 false.
Definition other_12 : StreamIntegrity.Frame := StreamIntegrity.Build_Frame 257 false 0 1 12 false.
Definition adaptation_only : StreamIntegrity.Frame := StreamIntegrity.Build_Frame 256 false 0 2 7 true.

(** A stream in which the frames 0, 1 and 2 of channel 256 are missing. *)
Definition stream_with_gap : list StreamIntegrity.Frame :=
  [null_packet; sent_14; other_9; sent_15; adaptation_only; sent_3; other_12;
   sent_4; null_packet].



(** Frame 9 of channel 256 with an adaptation field that asserts a
    discontinuity. *)
Definition restart_9 : StreamIntegrity.Frame := StreamIntegrity.Build_Frame 256 false 0 3 9 true.

(** A stream in which channel 256 starts anew at 9 after frame 15. *)
Definition stream_with_discontinuity : list StreamIntegrity.Frame :=
  [sent_14; sent_15; restart_9; StreamIntegrity.Build_Frame 256 false 0 1 10 false].

(** The recorded API model accepts every request. *)
Definition protect_accepts : RecordedProtect.Env :=
  {| RecordedProtect.changeProtect := fun _ _ => JS.Fulfilled tt |}.

End Samples.

(** * Properties of the recording event bus *)

Section RecordingEventFacts.

Import EventEmitter RecordingEvent.

Implicit Types (h : list (kind * callback)) (m : emission) (k : kind)
  (cb : callback) (self : RecordingEvent.t).

Lemma event_name_inj k1 k2 : event_name k1 = event_name k2 -> k1 = k2.
Proof. destruct k1, k2; first [reflexivity | discriminate]. Qed.

Lemma register_on k cb self :
  emitter (register k cb self)
  = on (event_name k) (wrap (arity k) cb) (emitter self).
Proof. destruct k; reflexivity. Qed.

Lemma registered_snoc h k cb :
  registered (h ++ [(k, cb)]) = register k cb (registered h).
Proof. unfold registered. rewrite foldl_app. reflexivity. Qed.

Lemma callbacks_for_snoc k h k' cb :
  callbacks_for k (h ++ [(k', cb)])
  = callbacks_for k h ++ (if decide (k' = k) then [cb] else []).
Proof.
  unfold callbacks_for. rewrite omap_app. simpl.
  destruct (decide (k' = k)); reflexivity.
Qed.

(** The listener array of a kind holds the wrappers of the callbacks
    registered for it, in registration order. *)
Lemma listeners_registered h k :
  default [] (emitter (registered h) !! event_name k)
  = wrap (arity k) <$> callbacks_for k h.
Proof.
  induction h as [|[k' cb] h IH] using rev_ind.
  - reflexivity.
  - rewrite registered_snoc, register_on, callbacks_for_snoc. unfold on.
    destruct (decide (k' = k)) as [->|Hne].
    + rewrite lookup_insert_eq. simpl. rewrite IH, fmap_app. reflexivity.
    + rewrite lookup_insert_ne by (intros Heq; apply Hne, event_name_inj, Heq).
      rewrite IH, app_nil_r. reflexivity.
Qed.

(** What one wrapped callback does when it is called: the failure of the
    callback ends in the log, now or later, and the listener returns. *)
Lemma wrap_outcome n cb (args : list value) :
  wrap n cb args
  = Outcome (sync_part (params n args) cb) (async_part (params n args) cb)
      (inl tt).
Proof.
  unfold wrap, async_arrow, try_catch, await_call, sync_part, async_part.
  cbn [ends before after].
  destruct (cb_call cb (params n args)); reflexivity.
Qed.

(** Calling a row of wrappers: each callback is entered, none stops the
    loop. *)
Lemma call_all_wrap n (cbs : list callback) (args : list value) :
  call_all (wrap n <$> cbs) args
  = Outcome (cbs ≫= sync_part (params n args))
            (cbs ≫= async_part (params n args)) (inl tt).
Proof.
  induction cbs as [|cb cbs IH]; [reflexivity|].
  rewrite fmap_cons, !bind_cons. cbn [call_all]. rewrite IH.
  rewrite wrap_outcome. reflexivity.
Qed.

Lemma perform_emit m self :
  perform m self
  = statement
      (emit (event_name (emission_kind m)) (emitted_args m) (emitter self)).
Proof. destruct m; reflexivity. Qed.

(** Every [emit...] method passes as many arguments as the listeners of
    its kind take. *)
Lemma params_emitted m :
  params (arity (emission_kind m)) (emitted_args m) = emitted_args m.
Proof. destruct m; reflexivity. Qed.

Lemma perform_registered h m :
  perform m (registered h)
  = let cbs := callbacks_for (emission_kind m) h in
    Outcome (cbs ≫= sync_part (emitted_args m))
            (cbs ≫= async_part (emitted_args m))
            (inl tt).
Proof.
  rewrite perform_emit. unfold statement, emit.
  rewrite listeners_registered, call_all_wrap, params_emitted. reflexivity.
Qed.

Lemma invocations_sync (args : list value) (cbs : list callback) :
  invocations (cbs ≫= sync_part args) = (fun cb => (cb_id cb, args)) <$> cbs.
Proof.
  induction cbs as [|cb cbs IH]; [reflexivity|].
  rewrite bind_cons. unfold invocations in *. rewrite omap_app, IH.
  unfold sync_part. destruct (cb_call cb args); reflexivity.
Qed.

Lemma logged_sync (args : list value) (cbs : list callback) :
  logged (cbs ≫= sync_part args) = omap (thrown args) cbs.
Proof.
  induction cbs as [|cb cbs IH]; [reflexivity|].
  rewrite bind_cons. unfold logged in *. rewrite omap_app, IH.
  unfold sync_part, thrown. cbn. destruct (cb_call cb args); reflexivity.
Qed.

(** The pending effects of an emission are the log entries of the
    rejections, each with its moment, callback after callback. *)
Lemma async_part_rejected_at (args : list value) (cbs : list callback) :
  cbs ≫= async_part args
  = (fun x => (x.1, LogError x.2)) <$> omap (rejected_at args) cbs.
Proof.
  induction cbs as [|cb cbs IH]; [reflexivity|].
  rewrite bind_cons, IH. cbn [omap list_omap].
  unfold async_part, rejected_at. destruct (cb_call cb args); reflexivity.
Qed.

Lemma rejected_at_rejected (args : list value) (cbs : list callback) :
  (omap (rejected_at args) cbs).*2 = omap (rejected args) cbs.
Proof.
  induction cbs as [|cb cbs IH]; [reflexivity|].
  cbn [omap list_omap]. unfold rejected_at, rejected in *.
  destruct (cb_call cb args); cbn [fmap list_fmap snd]; rewrite ?IH; reflexivity.
Qed.

Lemma logged_log_entries (l : list (nat * JS.error)) :
  logged ((fun x => (x.1, LogError x.2)) <$> l).*2 = l.*2.
Proof.
  induction l as [|x l IH]; [reflexivity|].
  cbn. unfold logged in IH. rewrite IH. reflexivity.
Qed.

Lemma invocations_log_entries (l : list (nat * JS.error)) :
  invocations ((fun x => (x.1, LogError x.2)) <$> l).*2 = [].
Proof. induction l as [|x l IH]; [reflexivity | exact IH]. Qed.

Lemma logged_async (args : list value) (cbs : list callback) :
  logged (cbs ≫= async_part args).*2 = omap (rejected args) cbs.
Proof.
  rewrite async_part_rejected_at, logged_log_entries. apply rejected_at_rejected.
Qed.

Lemma invocations_async (args : list value) (cbs : list callback) :
  invocations (cbs ≫= async_part args).*2 = [].
Proof. rewrite async_part_rejected_at. apply invocations_log_entries. Qed.

(** *** The order in which pending effects happen *)

Lemma insert_by_moment_perm {X : Type} (x : nat * X) (l : list (nat * X)) :
  insert_by_moment x l ≡ₚ x :: l.
Proof.
  induction l as [|y l IH]; [reflexivity|]. cbn [insert_by_moment].
  destruct (x.1 <=? y.1)%nat; [reflexivity|].
  rewrite IH. apply Permutation_swap.
Qed.

(** Nothing is lost and nothing is added when the pending effects are put
    in the order of their moments. *)
Lemma by_moment_perm {X : Type} (l : list (nat * X)) : by_moment l ≡ₚ l.
Proof.
  induction l as [|x l IH]; [reflexivity|].
  unfold by_moment in *. cbn [foldr]. rewrite insert_by_moment_perm, IH.
  reflexivity.
Qed.





Lemma insert_by_moment_fmap {X Y : Type} (f : X -> Y) (x : nat * X)
    (l : list (nat * X)) :
  insert_by_moment (x.1, f x.2) ((fun y => (y.1, f y.2)) <$> l)
  = (fun y => (y.1, f y.2)) <$> insert_by_moment x l.
Proof.
  induction l as [|y l IH]; [reflexivity|].
  cbn [fmap list_fmap insert_by_moment fst].
  destruct (x.1 <=? y.1)%nat; [reflexivity|].
  cbn [fmap list_fmap]. f_equal. exact IH.
Qed.

Lemma by_moment_fmap {X Y : Type} (f : X -> Y) (l : list (nat * X)) :
  by_moment ((fun y => (y.1, f y.2)) <$> l)
  = (fun y => (y.1, f y.2)) <$> by_moment l.
Proof.
  induction l as [|x l IH]; [reflexivity|].
  unfold by_moment in *. cbn [fmap list_fmap foldr].
  rewrite IH. apply insert_by_moment_fmap.
Qed.

Lemma logged_entries (l : list (nat * JS.error)) :
  logged ((fun x => LogError x.2) <$> l) = l.*2.
Proof.
  induction l as [|x l IH]; [reflexivity|].
  cbn. unfold logged in IH. rewrite IH. reflexivity.
Qed.

Lemma invocations_entries (l : list (nat * JS.error)) :
  invocations ((fun x => LogError x.2) <$> l) = [].
Proof. induction l as [|x l IH]; [reflexivity | exact IH]. Qed.

(** The log entries made after an emission, in the order in which they
    are made. *)
Lemma late_registered h m :
  late (perform m (registered h))
  = (fun x => LogError x.2)
    <$> by_moment (omap (rejected_at (emitted_args m))
                     (callbacks_for (emission_kind m) h)).
Proof.
  rewrite perform_registered. unfold late. cbn [later].
  rewrite async_part_rejected_at, by_moment_fmap, <- list_fmap_compose.
  reflexivity.
Qed.

(** Without the [try]/[catch] of the wrapper, Node's [emit] does pass the
    exception of a listener on to the emitter and skips the listeners
    after it. *)
Lemma bare_listener_propagates (cb1 cb2 : callback) (args : list value) e :
  cb_call cb1 (params 1 args) = Throws e ->
  call_all [bare 1 cb1; bare 1 cb2] args
  = Outcome [Invoke (cb_id cb1) (params 1 args)] [] (inr e).
Proof.
  intros H. cbn [call_all]. unfold bare, arrow, call. cbn [ends before after].
  rewrite H. reflexivity.
Qed.

(** C1. Whatever the kind of the emitted event and whatever the callbacks
    registered on the bus do, the [emit...] method returns normally to the
    emitter (no exception leaves it); every callback registered for the
    kind is entered, with the emitted arguments, whether or not another
    callback failed; and each failure is handed to the logger: an exception
    thrown by a callback before the listener returns, a rejected promise
    afterwards.  The entries pending when the method returns are those of
    the rejections, callback after callback; they are made in the order of
    the moments of the rejections, none lost and none added.  Nothing but
    these calls and log entries happens. *)
Theorem listener_failure_is_isolated h m :
  let o := perform m (registered h) in
  let cbs := callbacks_for (emission_kind m) h in
  result o = inl tt
  /\ invocations (now o) = (fun cb => (cb_id cb, emitted_args m)) <$> cbs
  /\ logged (now o) = omap (thrown (emitted_args m)) cbs
  /\ logged (later o).*2 = omap (rejected (emitted_args m)) cbs
  /\ logged (late o) ≡ₚ omap (rejected (emitted_args m)) cbs
  /\ invocations (late o) = [].
Proof.
  intros o cbs.
  assert (Hlate : late o
                  = (fun x => LogError x.2)
                    <$> by_moment (omap (rejected_at (emitted_args m)) cbs))
    by apply late_registered.
  subst o. rewrite Hlate, perform_registered. fold cbs. cbn [now later result].
  rewrite invocations_sync, logged_sync, logged_async.
  rewrite logged_entries, invocations_entries, by_moment_perm.
  rewrite rejected_at_rejected. repeat split; reflexivity.
Qed.

(** C7. For one emission of any kind, the callbacks registered for that
    kind are entered in the order of their registration. *)
Theorem dispatch_in_registration_order h m :
  (invocations (now (perform m (registered h)))).*1
  = cb_id <$> callbacks_for (emission_kind m) h.
Proof.
  rewrite perform_registered. cbn. rewrite invocations_sync.
  rewrite <- list_fmap_compose. reflexivity.
Qed.

Lemma count_invocations (args : list value) k i h :
  length (filter (fun x => x.1 = i)
            ((fun cb => (cb_id cb, args)) <$> callbacks_for k h))
  = length (filter (fun r => r.1 = k /\ cb_id r.2 = i) h).
Proof.
  induction h as [|[k' cb] h IH]; [reflexivity|].
  unfold callbacks_for in *. cbn [omap list_omap fst snd].
  rewrite (filter_cons _ (k', cb)). cbn [fst snd].
  destruct (decide (k' = k)) as [->|Hne].
  - rewrite fmap_cons, filter_cons. cbn [fst].
    destruct (decide (cb_id cb = i)) as [Hi|Hi].
    + rewrite decide_True by auto. cbn. rewrite IH. reflexivity.
    + rewrite decide_False by (intros [_ ?]; auto). exact IH.
  - rewrite decide_False by (intros [? _]; auto). exact IH.
Qed.

(** C10. The eight event names are pairwise distinct.  Hence, for one
    emission of any kind, a callback is entered as many times as it was
    registered for that kind before, each time with exactly the emitted
    arguments; registrations for other kinds do not count, so a callback
    registered for other kinds only is not entered at all. *)
Theorem emission_reaches_its_kind_only :
  NoDup (event_name <$> kinds)
  /\ forall h m,
      let inv := invocations (now (perform m (registered h))) in
      (forall i : nat,
          length (filter (fun x => x.1 = i) inv)
          = length (filter (fun r => r.1 = emission_kind m /\ cb_id r.2 = i) h))
      /\ Forall (fun x => x.2 = emitted_args m) inv.
Proof.
  split.
  - apply NoDup_fmap_2; [intros k1 k2; apply event_name_inj|].
    apply (bool_decide_unpack _). vm_compute. reflexivity.
  - intros h m inv. subst inv. rewrite perform_registered. cbn.
    rewrite invocations_sync. split.
    + intros i. apply count_invocations.
    + apply Forall_fmap, Forall_true. intros cb. reflexivity.
Qed.

End RecordingEventFacts.

(** * Further properties of the recording event bus *)

Section RecordingEventMore.

Import EventEmitter RecordingEvent.

Implicit Types (h : list (kind * callback)) (m : emission) (k : kind)
  (cb : callback) (self : RecordingEvent.t).

Lemma callbacks_for_app k h1 h2 :
  callbacks_for k (h1 ++ h2) = callbacks_for k h1 ++ callbacks_for k h2.
Proof. unfold callbacks_for. apply omap_app. Qed.

Lemma callbacks_for_nil k h :
  callbacks_for k h = [] <-> Forall (fun r => r.1 <> k) h.
Proof.
  induction h as [|[k' cb] h IH].
  - split; [constructor | reflexivity].
  - unfold callbacks_for in *. cbn [omap list_omap fst snd].
    destruct (decide (k' = k)) as [->|Hne].
    + split; [discriminate|]. intros H. inversion H as [|? ? Hk _]. contradiction.
    + rewrite IH. split.
      * intros H. constructor; assumption.
      * intros H. inversion H. assumption.
Qed.

Lemma bus_ext self1 self2 : emitter self1 = emitter self2 -> self1 = self2.
Proof. destruct self1, self2. cbn. intros ->. reflexivity. Qed.


(** X2. An [emit...] method does nothing at all, neither before nor after
    it returns, exactly when no callback was registered for its kind,
    whatever was registered for the other kinds; it returns nothing to
    tell the two cases apart. *)
Theorem emission_without_listener h m :
  (Forall (fun r => r.1 <> emission_kind m) h
   <-> perform m (registered h) = Outcome [] [] (inl tt))
  /\ result (perform m (registered h)) = inl tt.
Proof.
  rewrite <- callbacks_for_nil, perform_registered. cbv zeta.
  split; [|reflexivity]. split.
  - intros ->. reflexivity.
  - destruct (callbacks_for (emission_kind m) h); [reflexivity|].
    intros H. discriminate H.
Qed.

(** X3. Registrations for two different kinds can be made in either order:
    the bus is the same. *)
Theorem registrations_of_distinct_kinds_commute k1 k2 cb1 cb2 self :
  k1 <> k2 ->
  register k1 cb1 (register k2 cb2 self) = register k2 cb2 (register k1 cb1 self).
Proof.
  intros Hne. apply bus_ext. rewrite !register_on. unfold on.
  assert (Hn : event_name k1 <> event_name k2)
    by (intros H; apply Hne, event_name_inj, H).
  rewrite (lookup_insert_ne _ (event_name k2) (event_name k1)) by auto.
  rewrite (lookup_insert_ne _ (event_name k1) (event_name k2)) by auto.
  apply insert_insert_ne. auto.
Qed.

Lemma registrations_of_distinct_kinds_commute_witness :
  register StartPrep Samples.cb_throws (register Finish Samples.cb_returns new)
  = register Finish Samples.cb_returns (register StartPrep Samples.cb_throws new).
Proof.
  apply registrations_of_distinct_kinds_commute. discriminate.
Defined.

(** X4. A registration for another kind, wherever it stands among the
    registrations, changes nothing in an emission: not the calls, not the
    log entries, not the answer. *)
Theorem emission_ignores_other_kinds h1 h2 k cb m :
  k <> emission_kind m ->
  perform m (registered (h1 ++ (k, cb) :: h2))
  = perform m (registered (h1 ++ h2)).
Proof.
  intros Hne. rewrite !perform_registered, !callbacks_for_app.
  unfold callbacks_for at 2. cbn [omap list_omap fst snd].
  rewrite decide_False by exact Hne. reflexivity.
Qed.

Lemma emission_ignores_other_kinds_witness :
  perform (EmitStartPrepRecording Samples.reserve_7)
    (registered ([(StartPrep, Samples.cb_throws)]
                 ++ (Finish, Samples.cb_rejects)
                 :: [(StartPrep, Samples.cb_returns)]))
  = perform (EmitStartPrepRecording Samples.reserve_7)
      (registered ([(StartPrep, Samples.cb_throws)]
                   ++ [(StartPrep, Samples.cb_returns)])).
Proof.
  apply emission_ignores_other_kinds. discriminate.
Defined.

(** An emission to four callbacks, two of which return promises that are
    rejected: the one registered last is rejected first, and logged
    first. *)
Example emission_sample :
  let o := perform (EmitStartPrepRecording Samples.reserve_7)
             (registered [(StartPrep, Samples.cb_throws);
                          (Finish, Samples.cb_returns);
                          (StartPrep, Samples.cb_rejects);
                          (StartPrep, Samples.cb_returns);
                          (StartPrep, Samples.cb_rejects_sooner)]) in
  o = Outcome
        [Invoke 2 [VReserve Samples.reserve_7]; LogError "boom";
         Invoke 3 [VReserve Samples.reserve_7];
         Invoke 1 [VReserve Samples.reserve_7];
         Invoke 4 [VReserve Samples.reserve_7]]
        [(5%nat, LogError "late"); (2%nat, LogError "sooner")] (inl tt)
  /\ late o = [LogError "sooner"; LogError "late"].
Proof. vm_compute. split; reflexivity. Qed.

End RecordingEventMore.

(** * Properties of the drop-check tool *)

Section DropCheckFacts.

Import DropCheck.

Implicit Types (env : Env) (self : DropCheck.t) (args : Args).

Lemma release_and_exit_eq env :
  release_and_exit env
  = ([CheckerStop; TransformEnd; TransformUnpipe; ReadableClose; ProcessExit 1],
     Exit 1).
Proof.
  unfold release_and_exit, checker_stop.
  destruct (checker_stop_result env); reflexivity.
Qed.

Lemma run_stat_failure env self e :
  fs_statSync_size env (srcM2tsPath self) = inr e ->
  run env self
  = ([ConsoleLog MSG_START; LoggerInitialize;
      CreateReadStream (srcM2tsPath self); StatSync (srcM2tsPath self)],
     Throw e).
Proof. intros H. unfold run, _createTransformStream. rewrite H. reflexivity. Qed.

Lemma run_rejected env self n err :
  fs_statSync_size env (srcM2tsPath self) = inl n ->
  settled_by env = ReadError err \/ settled_by env = StartRejected err ->
  run env self
  = (prologue env self n ++ ConsoleError MSG_FAILED :: release err, Exit 1).
Proof.
  intros Hstat Hs. unfold run, _createTransformStream, analysis.
  rewrite Hstat, release_and_exit_eq.
  destruct Hs as [-> | ->]; reflexivity.
Qed.

Lemma run_getResult_rejected env self n err :
  fs_statSync_size env (srcM2tsPath self) = inl n ->
  settled_by env = ReadEnd ->
  checker_getResult_result env = JS.Rejected err ->
  run env self
  = (prologue env self n
     ++ CheckerGetResult :: ConsoleError MSG_RELEASE_FAILED :: release err,
     Exit 1).
Proof.
  intros Hstat Hs Hr.
  unfold run, _createTransformStream, analysis, checker_getResult.
  rewrite Hstat, Hs, Hr, release_and_exit_eq. reflexivity.
Qed.

(** The two reporting methods: three lines on the standard output; a call
    of [https.request] that throws. *)
Lemma print_trace (r : Result) :
  exists a b c, (_printDropResult r).1 = [ConsoleLog a; ConsoleLog b; ConsoleLog c].
Proof.
  unfold _printDropResult. destruct (totals r) as [[e d] s].
  eexists _, _, _. reflexivity.
Qed.

Lemma post_to_slack_throws self (r : Result) :
  _postToSlack self r
  = ([HttpsRequest SLACK_WEBHOOK_URL
        {| method := "POST";
           headers := [("Content-Type", "application/json")] |}],
     Throw ERR_INVALID_URL).
Proof.
  unfold _postToSlack, https_request. destruct (totals r) as [[e d] s].
  reflexivity.
Qed.

Lemma forget_trace {A} (p : JS.promise A) :
  (forget p).1 = match p with
                 | JS.Fulfilled _ => []
                 | JS.Rejected e => [UnhandledRejection e]
                 end.
Proof. destruct p; reflexivity. Qed.

Lemma run_completed env self n r :
  fs_statSync_size env (srcM2tsPath self) = inl n ->
  settled_by env = ReadEnd ->
  checker_getResult_result env = JS.Fulfilled r ->
  isPostToSlack self = false ->
  run env self
  = (prologue env self n
     ++ [CheckerGetResult; CheckerStop]
     ++ (forget (checker_stop_result env)).1
     ++ [TransformEnd; TransformUnpipe; ReadableClose; ConsoleLog MSG_DONE]
     ++ (_printDropResult r).1,
     Ok tt).
Proof.
  intros Hstat Hs Hr Hp.
  unfold run, _createTransformStream, analysis, checker_getResult, checker_stop.
  rewrite Hstat, Hs, Hr, Hp.
  unfold _printDropResult. cbn.
  destruct (totals r) as [[e d] s].
  destruct (checker_stop_result env); reflexivity.
Qed.

(** With the webhook option, the exception of [https.request] is caught by
    the [catch] that follows the [try] of [run]: the run that has printed
    its result goes through the second failure handler. *)
Lemma run_posting env self n r :
  fs_statSync_size env (srcM2tsPath self) = inl n ->
  settled_by env = ReadEnd ->
  checker_getResult_result env = JS.Fulfilled r ->
  isPostToSlack self = true ->
  run env self
  = (prologue env self n
     ++ [CheckerGetResult; CheckerStop]
     ++ (forget (checker_stop_result env)).1
     ++ [TransformEnd; TransformUnpipe; ReadableClose; ConsoleLog MSG_DONE]
     ++ (_printDropResult r).1
     ++ HttpsRequest SLACK_WEBHOOK_URL
          {| method := "POST";
             headers := [("Content-Type", "application/json")] |}
     :: ConsoleError MSG_RELEASE_FAILED :: release ERR_INVALID_URL,
     Exit 1).
Proof.
  intros Hstat Hs Hr Hp.
  unfold run, _createTransformStream, analysis, checker_getResult.
  rewrite Hstat, Hs, Hr, Hp, release_and_exit_eq.
  unfold _printDropResult, _postToSlack, https_request, checker_stop. cbn.
  destruct (totals r) as [[e d] s].
  destruct (checker_stop_result env); reflexivity.
Qed.

(** The five ways [run] can go. *)
Lemma run_cases env self :
  (exists e,
      fs_statSync_size env (srcM2tsPath self) = inr e
      /\ run env self
         = ([ConsoleLog MSG_START; LoggerInitialize;
             CreateReadStream (srcM2tsPath self); StatSync (srcM2tsPath self)],
            Throw e))
  \/ (exists n err,
        fs_statSync_size env (srcM2tsPath self) = inl n
        /\ (settled_by env = ReadError err \/ settled_by env = StartRejected err)
        /\ run env self
           = (prologue env self n ++ ConsoleError MSG_FAILED :: release err,
              Exit 1))
  \/ (exists n err,
        fs_statSync_size env (srcM2tsPath self) = inl n
        /\ settled_by env = ReadEnd
        /\ checker_getResult_result env = JS.Rejected err
        /\ run env self
           = (prologue env self n
              ++ CheckerGetResult :: ConsoleError MSG_RELEASE_FAILED
              :: release err, Exit 1))
  \/ (exists n r,
        fs_statSync_size env (srcM2tsPath self) = inl n
        /\ settled_by env = ReadEnd
        /\ checker_getResult_result env = JS.Fulfilled r
        /\ isPostToSlack self = false
        /\ run env self
           = (prologue env self n
              ++ [CheckerGetResult; CheckerStop]
              ++ (forget (checker_stop_result env)).1
              ++ [TransformEnd; TransformUnpipe; ReadableClose;
                  ConsoleLog MSG_DONE]
              ++ (_printDropResult r).1,
              Ok tt))
  \/ (exists n r,
        fs_statSync_size env (srcM2tsPath self) = inl n
        /\ settled_by env = ReadEnd
        /\ checker_getResult_result env = JS.Fulfilled r
        /\ isPostToSlack self = true
        /\ run env self
           = (prologue env self n
              ++ [CheckerGetResult; CheckerStop]
              ++ (forget (checker_stop_result env)).1
              ++ [TransformEnd; TransformUnpipe; ReadableClose;
                  ConsoleLog MSG_DONE]
              ++ (_printDropResult r).1
              ++ HttpsRequest SLACK_WEBHOOK_URL
                   {| method := "POST";
                      headers := [("Content-Type", "application/json")] |}
              :: ConsoleError MSG_RELEASE_FAILED :: release ERR_INVALID_URL,
              Exit 1)).
Proof.
  destruct (fs_statSync_size env (srcM2tsPath self)) as [n|e] eqn:Hstat.
  - destruct (settled_by env) as [|err|err] eqn:Hs;
      [destruct (checker_getResult_result env) as [r|err] eqn:Hr|..].
    + destruct (isPostToSlack self) eqn:Hp.
      * do 4 right. exists n, r. repeat split.
        apply (run_posting _ _ _ _ Hstat Hs Hr Hp).
      * do 3 right. left. exists n, r. repeat split.
        apply (run_completed _ _ _ _ Hstat Hs Hr Hp).
    + do 2 right. left. exists n, err. repeat split.
      apply (run_getResult_rejected _ _ _ _ Hstat Hs Hr).
    + right. left. exists n, err. repeat split; [left; reflexivity|].
      apply (run_rejected _ _ _ err Hstat). left. exact Hs.
    + right. left. exists n, err. repeat split; [right; reflexivity|].
      apply (run_rejected _ _ _ err Hstat). right. exact Hs.
  - left. exists e. split; [reflexivity|]. apply run_stat_failure, Hstat.
Qed.

Lemma constructor_accepts_input env args p :
  input args = Some p -> p <> "" ->
  constructor args
  = ([], Ok {| srcM2tsPath := p;
               dstLogDirPath := output args;
               isPostToSlack := slack args |})
  /\ main env args
     = run env {| srcM2tsPath := p;
                  dstLogDirPath := output args;
                  isPostToSlack := slack args |}.
Proof.
  intros Hp Hne.
  assert (Hc : constructor args
               = ([], Ok {| srcM2tsPath := p;
                            dstLogDirPath := output args;
                            isPostToSlack := slack args |})).
  { unfold constructor, input_missing. rewrite Hp.
    rewrite bool_decide_eq_false_2 by exact Hne. reflexivity. }
  split; [exact Hc|]. unfold main. rewrite Hc.
  unfold mbind, M_bind. cbn [fst snd app].
  destruct (run env _) as [tr r]. reflexivity.
Qed.


Lemma input_missing_exits env args :
  input args = None \/ input args = Some "" ->
  main env args
  = ([ConsoleError MSG_NO_INPUT; ConsoleError MSG_USAGE_1;
      ConsoleError MSG_USAGE_2; ProcessExit 1], Exit 1).
Proof.
  intros H. unfold main, constructor, input_missing.
  destruct H as [-> | ->]; reflexivity.
Qed.

(** *** The end of the process *)

Lemma uncaughtException_eq (e : JS.error) :
  uncaughtException e = ([ConsoleErrorValue e; ProcessExit 1], Exit 1).
Proof. reflexivity. Qed.

Lemma install_exit (tr : list effect) (c : Z) :
  install (tr, Exit c) = (tr, Exit c).
Proof.
  unfold install, try_catch. cbn [fst snd].
  destruct (unhandled tr); reflexivity.
Qed.

Lemma install_throw (tr : list effect) (e : JS.error) :
  install (tr, Throw e) = (tr ++ [ConsoleErrorValue e; ProcessExit 1], Exit 1).
Proof.
  unfold install, try_catch. cbn [fst snd].
  rewrite !uncaughtException_eq. cbn [fst snd].
  destruct (unhandled (tr ++ [ConsoleErrorValue e; ProcessExit 1]));
    reflexivity.
Qed.

Lemma install_ok (tr : list effect) :
  install (tr, Ok tt)
  = match unhandled tr with
    | [] => (tr, Ok tt)
    | e :: _ => (tr ++ [ConsoleErrorValue e; ProcessExit 1], Exit 1)
    end.
Proof.
  unfold install, try_catch. cbn [fst snd].
  destruct (unhandled tr); [reflexivity|].
  rewrite uncaughtException_eq. reflexivity.
Qed.

(** Applying the handler twice changes nothing. *)
Lemma install_install (m : M unit) : install (install m) = install m.
Proof.
  destruct m as [tr [[]|e|c]].
  - rewrite install_ok. destruct (unhandled tr) eqn:Hu.
    + rewrite install_ok, Hu. reflexivity.
    + apply install_exit.
  - rewrite install_throw. apply install_exit.
  - rewrite install_exit. apply install_exit.
Qed.





(** C5. When the size of the input cannot be read, as for an input file
    that does not exist, [fs.statSync] throws in [run] after the read
    stream was created and before either failure handler is in place:
    the tool prints no diagnostic line of its own and releases nothing,
    the read stream is not closed and neither stream is ended; the
    exception is raised as an uncaught one, whose handler writes the error
    and ends the process with status 1. *)
Theorem unreadable_input_is_not_released env args p e :
  input args = Some p -> p <> "" ->
  fs_statSync_size env p = inr e ->
  let tr := (script env args).1 in
  script env args
  = ([ConsoleLog MSG_START; LoggerInitialize; CreateReadStream p; StatSync p;
      ConsoleErrorValue e; ProcessExit 1], Exit 1)
  /\ exit_status (main env args) = 1
  /\ error_lines tr = []
  /\ (CheckerStop ∉ tr) /\ (TransformEnd ∉ tr) /\ (TransformUnpipe ∉ tr)
  /\ (ReadableClose ∉ tr).
Proof.
  intros Hp Hne Hstat tr. subst tr. unfold exit_status.
  change (install (main env args)) with (script env args).
  assert (H : script env args
              = ([ConsoleLog MSG_START; LoggerInitialize; CreateReadStream p;
                  StatSync p; ConsoleErrorValue e; ProcessExit 1], Exit 1)).
  { unfold script.
    destruct (constructor_accepts_input env args p Hp Hne) as [_ ->].
    rewrite (run_stat_failure env _ e) by exact Hstat. apply install_throw. }
  rewrite H. cbn [fst snd]. repeat split.
  all: intros Hin;
    repeat (apply elem_of_cons in Hin as [Hin|Hin]; [discriminate Hin|]);
    inversion Hin.
Qed.

Lemma starts_run env self n :
  fs_statSync_size env (srcM2tsPath self) = inl n ->
  starts (run env self).1
  = [(or_else (dstLogDirPath self) (path_dirname env (srcM2tsPath self)),
      srcM2tsPath self)].
Proof.
  intros Hstat.
  destruct (settled_by env) as [|err|err] eqn:Hs;
    [destruct (checker_getResult_result env) as [r|err] eqn:Hr|..].
  - destruct (isPostToSlack self) eqn:Hp;
      [rewrite (run_posting _ _ _ _ Hstat Hs Hr Hp)
      |rewrite (run_completed _ _ _ _ Hstat Hs Hr Hp)];
      cbn [fst]; destruct (print_trace r) as (a & b & c & ->);
      rewrite forget_trace; destruct (checker_stop_result env); reflexivity.
  - rewrite (run_getResult_rejected _ _ _ _ Hstat Hs Hr). reflexivity.
  - rewrite (run_rejected _ _ _ err Hstat) by auto. reflexivity.
  - rewrite (run_rejected _ _ _ err Hstat) by auto. reflexivity.
Qed.

(** C9. For an invocation with a non-empty input path whose size can be
    read, the checker is started once: with the directory of the input
    path when the output directory is absent or empty, and with the given
    output directory when it is not empty; the second argument is the
    input path. *)
Theorem report_directory_of_run env args p n :
  input args = Some p -> p <> "" ->
  fs_statSync_size env p = inl n ->
  (output args = None \/ output args = Some "" ->
   starts (main env args).1 = [(path_dirname env p, p)])
  /\ (forall d, output args = Some d -> d <> "" ->
      starts (main env args).1 = [(d, p)]).
Proof.
  intros Hp Hne Hstat.
  destruct (constructor_accepts_input env args p Hp Hne) as [_ Hmain].
  assert (Hstarts : starts (main env args).1
                    = [(or_else (output args) (path_dirname env p), p)]).
  { rewrite Hmain.
    exact (starts_run env {| srcM2tsPath := p;
                             dstLogDirPath := output args;
                             isPostToSlack := slack args |} n Hstat). }
  split.
  - intros [Ho | Ho]; rewrite Hstarts, Ho; reflexivity.
  - intros d Ho Hd. rewrite Hstarts, Ho. unfold or_else.
    rewrite bool_decide_eq_false_2 by exact Hd. reflexivity.
Qed.

(** *** The progress bar *)

Lemma pump_progress (chunks : list chunk) :
  forall (st : TransformState) (c : nat),
    count st = Z.of_nat c -> (c < 100)%nat ->
    progress_reports (pump chunks st).1
    = (fun j => ProgressUpdate
                  (bytesRead st + bytes_of (take (100 * j - c) chunks)))
      <$> seq 1 ((c + length chunks) / 100)
    /\ pushed (pump chunks st).1 = chunks
    /\ size (pump chunks st).2 = size st.
Proof.
  induction chunks as [|x l IH]; intros st c Hc Hlt.
  - cbn [pump fst snd length].
    rewrite Nat.add_0_r, Nat.div_small by exact Hlt. auto.
  - cbn [pump]. unfold transform. rewrite Hc.
    destruct (Z.eqb_spec (Z.of_nat c + 1) 100) as [Heq|Hneq]; cbn [fst snd].
    + assert (c = 99%nat) by lia. subst c.
      match goal with |- context [pump l ?s] => set (st' := s) end.
      destruct (IH st' 0%nat eq_refl ltac:(lia)) as (IH1 & IH2 & IH3).
      unfold progress_reports, pushed in *. rewrite !omap_app.
      cbn [omap list_omap app]. rewrite IH1, IH2, IH3. repeat split.
      replace (99 + length (x :: l))%nat with (length l + 1 * 100)%nat
        by (cbn [length]; lia).
      rewrite Nat.div_add, Nat.add_1_r, Nat.add_0_l by lia. cbn [seq].
      rewrite fmap_cons, <- (fmap_S_seq 1), <- list_fmap_compose. f_equal.
      * replace (100 * 1 - 99)%nat with 1%nat by lia.
        rewrite firstn_cons, firstn_O. cbn. f_equal. lia.
      * apply list_fmap_ext. intros _ j _. cbn [compose].
        replace (100 * S j - 99)%nat with (S (100 * j - 0))%nat by lia.
        rewrite firstn_cons. cbn. f_equal. lia.
    + match goal with |- context [pump l ?s] => set (st' := s) end.
      destruct (IH st' (S c) ltac:(subst st'; cbn; lia) ltac:(lia))
        as (IH1 & IH2 & IH3).
      unfold progress_reports, pushed in *. rewrite !omap_app.
      cbn [omap list_omap app]. rewrite IH1, IH2, IH3. repeat split.
      replace (c + length (x :: l))%nat with (S c + length l)%nat
        by (cbn [length]; lia).
      apply list_fmap_ext. intros i j Hj.
      apply lookup_seq in Hj as [-> _].
      replace (100 * (1 + i) - c)%nat with (S (100 * (1 + i) - S c))%nat by lia.
      rewrite firstn_cons. cbn [bytes_of foldr]. subst st'. cbn [bytesRead].
      f_equal. fold (bytes_of (take (100 * (1 + i) - S c) l)). lia.
Qed.

(** C8. When the size [n] of the input can be read, the progress bar is
    started with total [n] at 0; while any sequence of chunks passes
    through the transform stream, the bar is updated once after every
    hundredth chunk and at no other moment, the j-th update carrying the
    bytes of the first 100 j chunks; every chunk is handed on unchanged;
    and when the stream is flushed the bar is set to [n] and stopped. *)
Theorem progress_sampled_every_100_chunks env self n (chunks : list chunk) :
  fs_statSync_size env (srcM2tsPath self) = inl n ->
  exists st0,
    _createTransformStream env self
    = ([StatSync (srcM2tsPath self); ProgressStart n 0], Ok st0)
    /\ progress_reports (pump chunks st0).1
       = (fun j => ProgressUpdate (bytes_of (take (100 * j) chunks)))
         <$> seq 1 (length chunks / 100)
    /\ pushed (pump chunks st0).1 = chunks
    /\ flush (pump chunks st0).2 = [ProgressUpdate n; ProgressStop].
Proof.
  intros Hstat. exists {| size := n; bytesRead := 0; count := 0 |}.
  split.
  { unfold _createTransformStream. rewrite Hstat. reflexivity. }
  destruct (pump_progress chunks {| size := n; bytesRead := 0; count := 0 |}
              0%nat eq_refl ltac:(lia)) as (H1 & H2 & H3).
  repeat split.
  - rewrite H1. cbn [plus bytesRead]. apply list_fmap_ext. intros _ j _.
    rewrite Nat.sub_0_r. reflexivity.
  - exact H2.
  - unfold flush. rewrite H3. reflexivity.
Qed.

(** *** The totals and the webhook post *)

Lemma totals_foldl (l : list (string * PidInfo)) (a b c : Z) :
  foldl (fun acc entry =>
           (acc.1.1 + error entry.2, acc.1.2 + drop entry.2,
            acc.2 + scrambling entry.2)) (a, b, c) l
  = (a + foldr (fun entry acc => error entry.2 + acc) 0 l,
     b + foldr (fun entry acc => drop entry.2 + acc) 0 l,
     c + foldr (fun entry acc => scrambling entry.2 + acc) 0 l).
Proof.
  revert a b c. induction l as [|x l IH]; intros a b c; cbn [foldl foldr].
  - rewrite !Z.add_0_r. reflexivity.
  - rewrite IH. cbn [fst snd]. f_equal; [f_equal|]; lia.
Qed.

(** The three accumulators of the loop hold the sums of the three
    counters over the entries of the result. *)
Lemma totals_sum (r : Result) :
  totals r = (sum_of error r, sum_of drop r, sum_of scrambling r).
Proof. unfold totals, sum_of. rewrite totals_foldl. reflexivity. Qed.

Lemma sum_of_empty (f : PidInfo -> Z) : sum_of f ∅ = 0.
Proof. unfold sum_of. rewrite map_to_list_empty. reflexivity. Qed.

(** [sum_of] adds the counter of each entry once, whatever the order in
    which the keys are enumerated. *)
Lemma sum_of_insert (f : PidInfo -> Z) (r : Result) (pid : string) (info : PidInfo) :
  r !! pid = None ->
  sum_of f (<[pid := info]> r) = f info + sum_of f r.
Proof.
  intros Hfresh. unfold sum_of.
  assert (Hperm : forall l1 l2 : list (string * PidInfo),
             l1 ≡ₚ l2 ->
             foldr (fun entry acc => f entry.2 + acc) 0 l1
             = foldr (fun entry acc => f entry.2 + acc) 0 l2).
  { induction 1; cbn [foldr]; lia. }
  rewrite (Hperm _ _ (map_to_list_insert r pid info Hfresh)). reflexivity.
Qed.

Lemma ToInt32_mod (z : Z) : JS.ToInt32 z mod 2 ^ 32 = z mod 2 ^ 32.
Proof.
  unfold JS.ToInt32. cbv zeta.
  destruct (Z.ltb_spec (z mod 2 ^ 32) (2 ^ 31)).
  - apply Z.mod_mod. lia.
  - rewrite <- (Z.mod_add _ 1) by lia.
    replace (z mod 2 ^ 32 - 2 ^ 32 + 1 * 2 ^ 32) with (z mod 2 ^ 32) by lia.
    apply Z.mod_mod. lia.
Qed.

Lemma ToInt32_zero (z : Z) : JS.ToInt32 z = 0 <-> z mod 2 ^ 32 = 0.
Proof.
  split; intros H.
  - rewrite <- ToInt32_mod, H. reflexivity.
  - unfold JS.ToInt32. rewrite H. reflexivity.
Qed.

Lemma lor_mod_zero (a b : Z) :
  Z.lor a b mod 2 ^ 32 = 0 <-> a mod 2 ^ 32 = 0 /\ b mod 2 ^ 32 = 0.
Proof.
  rewrite <- !Z.land_ones by lia.
  rewrite Z.land_lor_distr_l. apply Z.lor_eq_0_iff.
Qed.

(** The value tested by [_postToSlack] is zero exactly when each total is
    a multiple of 2^32. *)
Lemma hasProblem_zero (e d s : Z) :
  hasProblem e d s = 0
  <-> e mod 2 ^ 32 = 0 /\ d mod 2 ^ 32 = 0 /\ s mod 2 ^ 32 = 0.
Proof.
  unfold hasProblem, JS.bitor.
  rewrite Z.lor_eq_0_iff, !ToInt32_zero, lor_mod_zero, !ToInt32_mod.
  tauto.
Qed.

Lemma urgent_payload (src : string) (e d s : Z) :
  urgent (slack_payload src e d s) = JS.truthy (hasProblem e d s).
Proof.
  unfold urgent, slack_payload. cbv zeta.
  destruct (JS.truthy (hasProblem e d s)).
  - rewrite bool_decide_eq_true_2; [destruct src; reflexivity|]. cbn. left.
  - rewrite bool_decide_eq_false_2; [reflexivity|]. cbn.
    intros H. apply elem_of_cons in H as [H|H]; [discriminate H|].
    apply elem_of_cons in H as [H|H]; [discriminate H|].
    inversion H.
Qed.

(** For totals below 2^32 the message is urgent exactly when one of them
    is not zero. *)
Lemma urgent_iff_nonzero_below_2_32 (src : string) (e d s : Z) :
  0 <= e < 2 ^ 32 -> 0 <= d < 2 ^ 32 -> 0 <= s < 2 ^ 32 ->
  urgent (slack_payload src e d s) = true <-> e <> 0 \/ d <> 0 \/ s <> 0.
Proof.
  intros He Hd Hs. rewrite urgent_payload. unfold JS.truthy.
  rewrite negb_true_iff, Z.eqb_neq, hasProblem_zero.
  rewrite !Z.mod_small by assumption. lia.
Qed.

Example dirname_sample :
  Samples.dirname "/rec/a.m2ts" = "/rec" /\ Samples.dirname "a.m2ts" = "."
  /\ Samples.dirname "/a.m2ts" = "/".
Proof. repeat split. Qed.

Example run_sample :
  main (Samples.env_completes Samples.small_result) Samples.args_with_output
  = ([ConsoleLog MSG_START; LoggerInitialize; CreateReadStream "/rec/a.m2ts";
      StatSync "/rec/a.m2ts"; ProgressStart 1880 0; ReadablePipe;
      ReadableOn "end"; ReadableOn "error"; CheckerStart "/log" "/rec/a.m2ts";
      CheckerGetResult; CheckerStop; TransformEnd; TransformUnpipe;
      ReadableClose; ConsoleLog MSG_DONE; ConsoleLog "error      : 2";
      ConsoleLog "drop       : 5"; ConsoleLog "scrambling : 1"], Ok tt).
Proof. vm_compute. reflexivity. Qed.

Example run_no_file_sample :
  main Samples.env_no_file Samples.args_input_only
  = ([ConsoleLog MSG_START; LoggerInitialize; CreateReadStream "/rec/a.m2ts";
      StatSync "/rec/a.m2ts"], Throw "ENOENT")
  /\ script Samples.env_no_file Samples.args_input_only
     = ([ConsoleLog MSG_START; LoggerInitialize; CreateReadStream "/rec/a.m2ts";
         StatSync "/rec/a.m2ts"; ConsoleErrorValue "ENOENT"; ProcessExit 1],
        Exit 1).
Proof. vm_compute. split; reflexivity. Qed.

Example run_with_webhook_option_sample :
  script (Samples.env_completes Samples.small_result) Samples.args_with_slack
  = ([ConsoleLog MSG_START; LoggerInitialize; CreateReadStream "/rec/a.m2ts";
      StatSync "/rec/a.m2ts"; ProgressStart 1880 0; ReadablePipe;
      ReadableOn "end"; ReadableOn "error"; CheckerStart "/rec" "/rec/a.m2ts";
      CheckerGetResult; CheckerStop; TransformEnd; TransformUnpipe;
      ReadableClose; ConsoleLog MSG_DONE; ConsoleLog "error      : 2";
      ConsoleLog "drop       : 5"; ConsoleLog "scrambling : 1";
      HttpsRequest "WEB_HOOK_URL_HERE"
        {| method := "POST";
           headers := [("Content-Type", "application/json")] |};
      ConsoleError MSG_RELEASE_FAILED; ConsoleErrorValue ERR_INVALID_URL;
      CheckerStop; TransformEnd; TransformUnpipe; ReadableClose;
      ProcessExit 1], Exit 1).
Proof. vm_compute. reflexivity. Qed.

Example has_scheme_sample :
  has_scheme SLACK_WEBHOOK_URL = false
  /\ has_scheme "https://hooks.example.test/services/T0/B0" = true
  /\ has_scheme "//hooks.example.test/" = false.
Proof. repeat split. Qed.

Example urgent_sample :
  urgent (slack_payload "/rec/a.m2ts" 2 5 1) = true
  /\ urgent (slack_payload "/rec/a.m2ts" 0 0 0) = false
  /\ slack_payload "/rec/a.m2ts" 2 0 1
     = {| text := "[!] /rec/a.m2ts";
          blocks := [section "<!here>"; section ":warning: *E:2* D:0 *S:1*";
                     section ">/rec/a.m2ts"] |}.
Proof. vm_compute. repeat split. Qed.

(** C2. With the webhook option, on every run that gets its result:
    [https.request] is called once, for a POST, with the placeholder that
    stands where the address of the webhook should be; the placeholder is
    not a URL, so the call throws.  No body is written and the request is
    not ended: nothing is sent.  The exception is caught in [run], which
    reports a failure of the release or of the reading of the drop
    information, releases, and ends the process with status 1. *)
Theorem webhook_request_is_refused env args p n r :
  input args = Some p -> p <> "" -> slack args = true ->
  fs_statSync_size env p = inl n ->
  settled_by env = ReadEnd ->
  checker_getResult_result env = JS.Fulfilled r ->
  let tr := (main env args).1 in
  has_scheme SLACK_WEBHOOK_URL = false
  /\ requests tr
     = [(SLACK_WEBHOOK_URL,
         {| method := "POST";
            headers := [("Content-Type", "application/json")] |})]
  /\ bodies tr = []
  /\ (RequestEnd ∉ tr)
  /\ stderr tr
     = [ConsoleError MSG_RELEASE_FAILED; ConsoleErrorValue ERR_INVALID_URL]
  /\ (main env args).2 = Exit 1
  /\ exit_status (main env args) = 1.
Proof.
  intros Hp Hne Hslack Hstat Hs Hr tr. subst tr. unfold exit_status.
  destruct (constructor_accepts_input env args p Hp Hne) as [_ ->].
  rewrite (run_posting env {| srcM2tsPath := p; dstLogDirPath := output args;
                              isPostToSlack := slack args |}
             n r Hstat Hs Hr Hslack), install_exit.
  cbn [fst snd]. destruct (print_trace r) as (a & b & c & ->).
  rewrite forget_trace.
  destruct (checker_stop_result env); repeat split.
  all: intros Hin;
    repeat (apply elem_of_cons in Hin as [Hin|Hin]; [discriminate Hin|]);
    inversion Hin.
Qed.

(** *** Concrete runs *)

Lemma webhook_request_is_refused_witness :
  let env := Samples.env_completes Samples.small_result in
  let tr := (main env Samples.args_with_slack).1 in
  has_scheme SLACK_WEBHOOK_URL = false
  /\ requests tr
     = [(SLACK_WEBHOOK_URL,
         {| method := "POST";
            headers := [("Content-Type", "application/json")] |})]
  /\ bodies tr = []
  /\ (RequestEnd ∉ tr)
  /\ stderr tr
     = [ConsoleError MSG_RELEASE_FAILED; ConsoleErrorValue ERR_INVALID_URL]
  /\ (main env Samples.args_with_slack).2 = Exit 1
  /\ exit_status (main env Samples.args_with_slack) = 1.
Proof.
  apply (webhook_request_is_refused
           (Samples.env_completes Samples.small_result)
           Samples.args_with_slack "/rec/a.m2ts" 1880 Samples.small_result);
    [reflexivity | discriminate | reflexivity..].
Defined.


Lemma unreadable_input_is_not_released_witness :
  let tr := (script Samples.env_no_file Samples.args_input_only).1 in
  script Samples.env_no_file Samples.args_input_only
  = ([ConsoleLog MSG_START; LoggerInitialize; CreateReadStream "/rec/a.m2ts";
      StatSync "/rec/a.m2ts"; ConsoleErrorValue "ENOENT"; ProcessExit 1],
     Exit 1)
  /\ exit_status (main Samples.env_no_file Samples.args_input_only) = 1
  /\ error_lines tr = []
  /\ (CheckerStop ∉ tr) /\ (TransformEnd ∉ tr) /\ (TransformUnpipe ∉ tr)
  /\ (ReadableClose ∉ tr).
Proof.
  apply (unreadable_input_is_not_released Samples.env_no_file
           Samples.args_input_only "/rec/a.m2ts" "ENOENT");
    [reflexivity | discriminate | reflexivity].
Defined.


Lemma report_directory_of_run_witness :
  starts (main (Samples.env_completes Samples.small_result)
            Samples.args_input_only).1 = [("/rec", "/rec/a.m2ts")]
  /\ starts (main (Samples.env_completes Samples.small_result)
               Samples.args_with_output).1 = [("/log", "/rec/a.m2ts")].
Proof.
  split.
  - apply (proj1 (report_directory_of_run
                    (Samples.env_completes Samples.small_result)
                    Samples.args_input_only "/rec/a.m2ts" 1880
                    eq_refl ltac:(discriminate) eq_refl)).
    left. reflexivity.
  - apply (proj2 (report_directory_of_run
                    (Samples.env_completes Samples.small_result)
                    Samples.args_with_output "/rec/a.m2ts" 1880
                    eq_refl ltac:(discriminate) eq_refl) "/log");
      [reflexivity | discriminate].
Defined.

Lemma progress_sampled_every_100_chunks_witness :
  exists st0,
    _createTransformStream (Samples.env_completes Samples.small_result)
      Samples.self
    = ([StatSync "/rec/a.m2ts"; ProgressStart 1880 0], Ok st0)
    /\ progress_reports (pump Samples.chunks_250 st0).1
       = (fun j => ProgressUpdate (bytes_of (take (100 * j) Samples.chunks_250)))
         <$> seq 1 (length Samples.chunks_250 / 100)
    /\ pushed (pump Samples.chunks_250 st0).1 = Samples.chunks_250
    /\ flush (pump Samples.chunks_250 st0).2
       = [ProgressUpdate 1880; ProgressStop].
Proof.
  apply (progress_sampled_every_100_chunks
           (Samples.env_completes Samples.small_result) Samples.self 1880
           Samples.chunks_250).
  reflexivity.
Defined.

Example progress_sample :
  progress_reports
    (pump Samples.chunks_250 {| size := 1880; bytesRead := 0; count := 0 |}).1
  = [ProgressUpdate 300; ProgressUpdate 600].
Proof. vm_compute. reflexivity. Qed.

End DropCheckFacts.

(** * The constructor that reads [process.argv] *)

Section DropCheckArgvFacts.

Import DropCheck.

(** With fewer than three entries in [process.argv] the usage line is
    written to the error channel and the process ends with status 1. *)
Lemma argv_without_input (env : Env) (argv : list string) :
  (length argv < 3)%nat ->
  DropCheckArgv.main env argv
  = ([ConsoleError DropCheckArgv.MSG_USAGE; ProcessExit 1], Exit 1).
Proof.
  intros H. unfold DropCheckArgv.main, DropCheckArgv.constructor.
  destruct (Nat.ltb_spec (length argv) 3); [reflexivity | lia].
Qed.

(** Otherwise the third entry is the input path and the fourth, if any,
    the output directory. *)
Lemma argv_with_input (node script p : string) (rest : list string) :
  DropCheckArgv.constructor (node :: script :: p :: rest)
  = ([], Ok {| srcM2tsPath := p;
               dstLogDirPath := head rest;
               isPostToSlack := false |}).
Proof. destruct rest; reflexivity. Qed.

(** An empty third entry is taken as the input path like any other. *)
Example argv_with_empty_input :
  DropCheckArgv.constructor ["node"; "DropCheck.js"; ""]
  = ([], Ok {| srcM2tsPath := ""; dstLogDirPath := None; isPostToSlack := false |}).
Proof. reflexivity. Qed.

End DropCheckArgvFacts.

(** * Further properties of the drop-check tool *)

Section DropCheckMore.

Import DropCheck.

Implicit Types (env : Env) (self : DropCheck.t) (args : Args).


(** X6. A rejection is left unhandled in one situation only: [run] got the
    result and the call of [checker.stop] that it does not await rejects.
    In both failure handlers the rejection of [checker.stop] is swallowed. *)
Theorem unhandled_rejection_only_from_unawaited_stop env self e :
  e ∈ unhandled (run env self).1
  <-> exists n r,
      fs_statSync_size env (srcM2tsPath self) = inl n
      /\ settled_by env = ReadEnd
      /\ checker_getResult_result env = JS.Fulfilled r
      /\ checker_stop_result env = JS.Rejected e.
Proof.
  destruct (run_cases env self)
    as [(e0 & Hstat & Hrun) | [(n & err & Hstat & Hs & Hrun)
       | [(n & err & Hstat & Hs & Hr & Hrun)
       | [(n & r & Hstat & Hs & Hr & Hslack & Hrun)
       | (n & r & Hstat & Hs & Hr & Hslack & Hrun)]]]];
    rewrite Hrun; cbn [fst].
  - split; [intros H; inversion H|]. intros (? & ? & H & _). congruence.
  - split; [intros H; inversion H|]. intros (? & ? & _ & H & _).
    destruct Hs; congruence.
  - split; [intros H; inversion H|]. intros (? & ? & _ & _ & H & _). congruence.
  - destruct (print_trace r) as (a & b & c & ->).
    unfold unhandled in *. rewrite !omap_app, forget_trace.
    destruct (checker_stop_result env) as [u|e'] eqn:Hstop; cbn.
    + split; [intros H; inversion H|]. intros (? & ? & _ & _ & _ & H). congruence.
    + rewrite list_elem_of_singleton. split.
      * intros ->. exists n, r. auto.
      * intros (? & ? & _ & _ & _ & H). congruence.
  - destruct (print_trace r) as (a & b & c & ->).
    unfold unhandled in *. rewrite !omap_app, forget_trace.
    destruct (checker_stop_result env) as [u|e'] eqn:Hstop; cbn.
    + split; [intros H; inversion H|]. intros (? & ? & _ & _ & _ & H). congruence.
    + rewrite list_elem_of_singleton. split.
      * intros ->. exists n, r. auto.
      * intros (? & ? & _ & _ & _ & H). congruence.
Qed.

(** X7. Whatever the arguments and the surroundings, [process.exit] is
    called at most once, with status 1, and it is then the last thing the
    tool does; it is never called with another status. *)
Theorem exit_is_last_and_has_status_1 env args :
  (exits (main env args).1 = [] /\ forall c, (main env args).2 <> Exit c)
  \/ (exits (main env args).1 = [1]
      /\ (main env args).2 = Exit 1
      /\ last (main env args).1 = Some (ProcessExit 1)).
Proof.
  destruct (input args) as [p|] eqn:Hp; [destruct (decide (p = "")) as [->|Hne]|].
  - right. rewrite (input_missing_exits env args (or_intror Hp)).
    repeat split.
  - destruct (constructor_accepts_input env args p Hp Hne) as [_ ->].
    destruct (run_cases env {| srcM2tsPath := p; dstLogDirPath := output args;
                               isPostToSlack := slack args |})
      as [(e0 & Hstat & Hrun) | [(n & err & Hstat & Hs & Hrun)
         | [(n & err & Hstat & Hs & Hr & Hrun)
         | [(n & r & Hstat & Hs & Hr & Hslack & Hrun)
         | (n & r & Hstat & Hs & Hr & Hslack & Hrun)]]]];
      rewrite Hrun; cbn [fst snd].
    + left. split; [reflexivity | discriminate].
    + right. repeat split.
    + right. repeat split.
    + left. split; [|discriminate].
      destruct (print_trace r) as (a & b & c & ->).
      rewrite forget_trace. destruct (checker_stop_result env); reflexivity.
    + right. destruct (print_trace r) as (a & b & c & ->).
      rewrite forget_trace. destruct (checker_stop_result env); repeat split.
  - right. rewrite (input_missing_exits env args (or_introl Hp)).
    repeat split.
Qed.

(** X8. A request to the webhook is made only when the webhook option was
    given, the read stream ended and the result was retrieved: never
    without the option, and never after a failure. *)
Theorem webhook_needs_option_and_result env args :
  requests (main env args).1 <> [] ->
  slack args = true
  /\ settled_by env = ReadEnd
  /\ exists r, checker_getResult_result env = JS.Fulfilled r.
Proof.
  intros Hreq.
  destruct (input args) as [p|] eqn:Hp; [destruct (decide (p = "")) as [->|Hne]|].
  - rewrite (input_missing_exits env args (or_intror Hp)) in Hreq.
    exfalso. apply Hreq. reflexivity.
  - destruct (constructor_accepts_input env args p Hp Hne) as [_ Hmain].
    rewrite Hmain in Hreq.
    destruct (run_cases env {| srcM2tsPath := p; dstLogDirPath := output args;
                               isPostToSlack := slack args |})
      as [(e0 & Hstat & Hrun) | [(n & err & Hstat & Hs & Hrun)
         | [(n & err & Hstat & Hs & Hr & Hrun)
         | [(n & r & Hstat & Hs & Hr & Hslack & Hrun)
         | (n & r & Hstat & Hs & Hr & Hslack & Hrun)]]]];
      rewrite Hrun in Hreq; cbn [fst snd] in Hreq;
      try (exfalso; apply Hreq; reflexivity).
    + exfalso. apply Hreq.
      destruct (print_trace r) as (a & b & c & ->).
      rewrite forget_trace. destruct (checker_stop_result env); reflexivity.
    + split; [exact Hslack|]. split; [exact Hs|]. exists r. exact Hr.
  - rewrite (input_missing_exits env args (or_introl Hp)) in Hreq.
    exfalso. apply Hreq. reflexivity.
Qed.

Lemma webhook_needs_option_and_result_witness :
  requests (main (Samples.env_completes Samples.small_result)
              Samples.args_with_slack).1 <> []
  /\ slack Samples.args_with_slack = true
  /\ settled_by (Samples.env_completes Samples.small_result) = ReadEnd
  /\ exists r,
      checker_getResult_result (Samples.env_completes Samples.small_result)
      = JS.Fulfilled r.
Proof.
  assert (H : requests (main (Samples.env_completes Samples.small_result)
                          Samples.args_with_slack).1 <> [])
    by (vm_compute; discriminate).
  split; [exact H|].
  exact (webhook_needs_option_and_result
           (Samples.env_completes Samples.small_result)
           Samples.args_with_slack H).
Defined.

(** X9. [checker.getResult] is called exactly when the size of the input
    could be read and the read stream ended; after an error of the read
    stream or a failed start the result is not asked for. *)
Theorem result_requested_iff_stream_ended env self :
  CheckerGetResult ∈ (run env self).1
  <-> exists n,
      fs_statSync_size env (srcM2tsPath self) = inl n
      /\ settled_by env = ReadEnd.
Proof.
  destruct (run_cases env self)
    as [(e0 & Hstat & Hrun) | [(n & err & Hstat & Hs & Hrun)
       | [(n & err & Hstat & Hs & Hr & Hrun)
       | [(n & r & Hstat & Hs & Hr & Hslack & Hrun)
       | (n & r & Hstat & Hs & Hr & Hslack & Hrun)]]]];
    rewrite Hrun; cbn [fst].
  - split.
    + intros H. repeat (apply elem_of_cons in H as [H|H]; [discriminate H|]).
      inversion H.
    + intros (? & H & _). congruence.
  - split.
    + intros H. apply elem_of_app in H as [H|H];
        repeat (apply elem_of_cons in H as [H|H]; [discriminate H|]);
        inversion H.
    + intros (? & _ & H). destruct Hs; congruence.
  - split; [|intros _; apply elem_of_app; right; left].
    intros _. exists n. auto.
  - split; [|intros _; apply elem_of_app; right; left].
    intros _. exists n. auto.
  - split; [|intros _; apply elem_of_app; right; left].
    intros _. exists n. auto.
Qed.

(** *** The totals *)

(** X10. The totals of the empty result are 0, and setting the entry of a
    pid adds the three counters of the entry to the totals of the other
    entries, wherever the pid stands among the keys. *)
Theorem totals_of_insert (r : Result) (pid : string) (info : PidInfo) :
  totals ∅ = (0, 0, 0)
  /\ totals (<[pid := info]> r)
     = ((totals (delete pid r)).1.1 + error info,
        (totals (delete pid r)).1.2 + drop info,
        (totals (delete pid r)).2 + scrambling info).
Proof.
  split; [reflexivity|].
  rewrite <- (insert_delete_eq r pid info), !totals_sum.
  rewrite !sum_of_insert by apply lookup_delete_eq.
  cbn [fst snd]. f_equal; [f_equal|]; lia.
Qed.

(** X11. The message to the webhook is marked as urgent exactly when one
    of the three totals is not a multiple of 2^32. *)
Theorem urgent_iff_some_total_not_multiple_of_2_32 (src : string) (e d s : Z) :
  urgent (slack_payload src e d s) = true
  <-> ~ (e mod 2 ^ 32 = 0 /\ d mod 2 ^ 32 = 0 /\ s mod 2 ^ 32 = 0).
Proof.
  rewrite urgent_payload. unfold JS.truthy.
  rewrite negb_true_iff, Z.eqb_neq, hasProblem_zero. reflexivity.
Qed.

Lemma sum_of_zero (f : PidInfo -> Z) (r : Result) :
  map_Forall (fun _ info => f info = 0) r -> sum_of f r = 0.
Proof.
  intros H. unfold sum_of.
  assert (Hl : Forall (fun entry => f entry.2 = 0) (map_to_list r)).
  { apply Forall_forall. intros [pid info] Hin.
    apply elem_of_map_to_list in Hin. exact (H pid info Hin). }
  induction Hl as [|x l Hx _ IH]; cbn [foldr]; lia.
Qed.

(** X12. For a result in which every counter is 0, the empty result among
    them, three lines with 0 are printed, and the payload built for the
    webhook is the plain one: the source path as text, a check mark line
    and the quoted path as blocks. *)
Theorem report_of_clean_result self (r : Result) :
  map_Forall (fun _ info => error info = 0 /\ drop info = 0 /\ scrambling info = 0) r ->
  _printDropResult r
  = ([ConsoleLog "error      : 0"; ConsoleLog "drop       : 0";
      ConsoleLog "scrambling : 0"], Ok tt)
  /\ totals r = (0, 0, 0)
  /\ slack_payload (srcM2tsPath self) (totals r).1.1 (totals r).1.2 (totals r).2
     = {| text := srcM2tsPath self;
          blocks := [section ":white_check_mark: E:0 D:0 S:0";
                     section (">" +:+ srcM2tsPath self)] |}.
Proof.
  intros H. unfold _printDropResult. rewrite totals_sum.
  rewrite !sum_of_zero by (eapply map_Forall_impl; [exact H | cbn; tauto]).
  repeat split.
Qed.

Lemma report_of_clean_result_witness :
  _printDropResult Samples.clean_result
  = ([ConsoleLog "error      : 0"; ConsoleLog "drop       : 0";
      ConsoleLog "scrambling : 0"], Ok tt)
  /\ totals Samples.clean_result = (0, 0, 0)
  /\ slack_payload (srcM2tsPath Samples.self)
       (totals Samples.clean_result).1.1 (totals Samples.clean_result).1.2
       (totals Samples.clean_result).2
     = {| text := srcM2tsPath Samples.self;
          blocks := [section ":white_check_mark: E:0 D:0 S:0";
                     section (">" +:+ srcM2tsPath Samples.self)] |}.
Proof.
  apply (report_of_clean_result Samples.self Samples.clean_result).
  apply map_Forall_singleton. repeat split.
Defined.

(** *** The transform stream *)

Lemma pump_state (chunks : list chunk) :
  forall (st : TransformState) (c : nat),
    count st = Z.of_nat c -> (c < 100)%nat ->
    bytesRead (pump chunks st).2 = bytesRead st + bytes_of chunks
    /\ count (pump chunks st).2 = Z.of_nat ((c + length chunks) mod 100)
    /\ size (pump chunks st).2 = size st.
Proof.
  induction chunks as [|x l IH]; intros st c Hc Hlt.
  - cbn [pump snd bytes_of foldr length].
    rewrite Nat.add_0_r, Nat.mod_small by exact Hlt. repeat split; [lia | exact Hc].
  - cbn [pump snd]. unfold transform. rewrite Hc.
    destruct (Z.eqb_spec (Z.of_nat c + 1) 100) as [Heq|Hneq]; cbn [fst snd].
    + assert (c = 99%nat) by lia. subst c.
      match goal with |- context [pump l ?s] => set (st' := s) end.
      destruct (IH st' 0%nat eq_refl ltac:(lia)) as (H1 & H2 & H3).
      rewrite H1, H2, H3. subst st'. cbn [bytesRead size].
      split; [|split; [|reflexivity]].
      * cbn [bytes_of foldr]. fold (bytes_of l). lia.
      * f_equal. cbn [length].
        replace (99 + S (length l))%nat with (0 + length l + 1 * 100)%nat by lia.
        symmetry. apply Nat.Div0.mod_add.
    + match goal with |- context [pump l ?s] => set (st' := s) end.
      destruct (IH st' (S c) ltac:(subst st'; cbn; lia) ltac:(lia))
        as (H1 & H2 & H3).
      rewrite H1, H2, H3. subst st'. cbn [bytesRead size].
      split; [|split; [|reflexivity]].
      * cbn [bytes_of foldr]. fold (bytes_of l). lia.
      * do 2 f_equal. cbn [length]. lia.
Qed.

(** X13. After any sequence of chunks went through the transform stream,
    its byte counter holds the total length of the chunks, its chunk
    counter holds their number modulo 100, hence stays below 100, and the
    size taken at creation is unchanged. *)
Theorem transform_state_after_chunks (chunks : list chunk) (n : Z) :
  let st := (pump chunks {| size := n; bytesRead := 0; count := 0 |}).2 in
  bytesRead st = bytes_of chunks
  /\ count st = Z.of_nat (length chunks mod 100)
  /\ 0 <= count st < 100
  /\ size st = n.
Proof.
  intros st. subst st.
  destruct (pump_state chunks {| size := n; bytesRead := 0; count := 0 |}
              0%nat eq_refl ltac:(lia)) as (H1 & H2 & H3).
  rewrite H1, H2, H3. cbn [bytesRead size plus].
  pose proof (Nat.mod_upper_bound (length chunks) 100 ltac:(lia)).
  repeat split; lia.
Qed.

Lemma bytes_of_nonneg (l : list chunk) : 0 <= bytes_of l.
Proof. induction l as [|x l IH]; cbn [bytes_of foldr]; [lia|]. fold (bytes_of l). lia. Qed.

Lemma bytes_of_take_mono (l : list chunk) :
  forall a b : nat, (a <= b)%nat -> bytes_of (take a l) <= bytes_of (take b l).
Proof.
  induction l as [|x l IH]; intros a b Hab.
  - rewrite !take_nil. lia.
  - destruct a as [|a].
    + rewrite firstn_O. apply bytes_of_nonneg.
    + destruct b as [|b]; [lia|]. rewrite !firstn_cons.
      cbn [bytes_of foldr]. fold (bytes_of (take a l)) (bytes_of (take b l)).
      specialize (IH a b ltac:(lia)). lia.
Qed.

Lemma bytes_of_take_le (l : list chunk) (a : nat) : bytes_of (take a l) <= bytes_of l.
Proof.
  rewrite <- (firstn_all l) at 2.
  destruct (Nat.le_gt_cases a (length l)).
  - apply bytes_of_take_mono. assumption.
  - rewrite (take_ge l a) by lia. rewrite firstn_all. lia.
Qed.

(** X14. Before the flush the progress bar never goes back and never
    passes the number of bytes read: the values of the updates made while
    chunks pass are non-negative, at most the total length of the chunks,
    and each is at least the one before. *)
Theorem progress_never_goes_back (chunks : list chunk) (n : Z) :
  exists values : list Z,
    progress_reports (pump chunks {| size := n; bytesRead := 0; count := 0 |}).1
    = ProgressUpdate <$> values
    /\ Forall (fun v => 0 <= v <= bytes_of chunks) values
    /\ forall (i j : nat) (vi vj : Z),
        (i <= j)%nat -> values !! i = Some vi -> values !! j = Some vj -> vi <= vj.
Proof.
  exists ((fun j => bytes_of (take (100 * j) chunks))
          <$> seq 1 (length chunks / 100)).
  destruct (pump_progress chunks {| size := n; bytesRead := 0; count := 0 |}
              0%nat eq_refl ltac:(lia)) as (H1 & _ & _).
  split; [|split].
  - rewrite H1, <- list_fmap_compose. cbn [plus bytesRead].
    apply list_fmap_ext. intros _ j _. cbn [compose].
    rewrite Nat.sub_0_r. reflexivity.
  - apply Forall_fmap, Forall_forall. intros j _. cbn [compose].
    split; [apply bytes_of_nonneg | apply bytes_of_take_le].
  - intros i j vi vj Hij Hi Hj.
    rewrite list_lookup_fmap in Hi, Hj.
    destruct (seq 1 (length chunks / 100) !! i) as [a|] eqn:Ha; [|discriminate].
    destruct (seq 1 (length chunks / 100) !! j) as [b|] eqn:Hb; [|discriminate].
    apply lookup_seq in Ha as [-> _]. apply lookup_seq in Hb as [-> _].
    cbn in Hi, Hj. injection Hi as <-. injection Hj as <-.
    apply bytes_of_take_mono. lia.
Qed.



End DropCheckMore.

(** * Further properties of the variant that reads [process.argv] *)

Section DropCheckArgvMore.

Import DropCheck.

Implicit Types (env : Env) (self : DropCheck.t) (argv : list string).

Lemma argv_run_unfold env self :
  DropCheckArgv.run env self
  = DropCheck.run env {| srcM2tsPath := srcM2tsPath self;
                         dstLogDirPath := dstLogDirPath self;
                         isPostToSlack := false |}.
Proof.
  unfold DropCheckArgv.run, DropCheck.run, _createTransformStream, analysis,
    checker_getResult, release_and_exit, checker_stop.
  cbn [srcM2tsPath dstLogDirPath isPostToSlack].
  destruct (checker_stop_result env) as [u|e'].
  all: destruct (fs_statSync_size env (srcM2tsPath self)) as [n|e]; [|reflexivity].
  all: destruct (settled_by env) as [|err|err]; [|reflexivity..].
  all: destruct (checker_getResult_result env) as [r|err]; [|reflexivity].
  all: unfold _printDropResult; cbn; destruct (totals r) as [[a b] c]; reflexivity.
Qed.

(** X15. The two texts of [run] do the same, call for call, whenever the
    webhook option of the newer one is off. *)
Theorem argv_run_agrees_with_run env self :
  DropCheckArgv.run env self
  = DropCheck.run env {| srcM2tsPath := srcM2tsPath self;
                         dstLogDirPath := dstLogDirPath self;
                         isPostToSlack := false |}.
Proof. apply argv_run_unfold. Qed.

Lemma argv_start_short env argv :
  (length argv < 3)%nat ->
  DropCheckArgv.start env argv
  = ([ConsoleError DropCheckArgv.MSG_USAGE; ProcessExit 1], Exit 1).
Proof.
  intros H. unfold DropCheckArgv.start, DropCheckArgv.constructor.
  destruct (Nat.ltb_spec (length argv) 3); [reflexivity | lia].
Qed.

Lemma argv_start_run env (node script p : string) (rest : list string) :
  DropCheckArgv.start env (node :: script :: p :: rest)
  = DropCheckArgv.run env {| srcM2tsPath := p;
                             dstLogDirPath := head rest;
                             isPostToSlack := false |}.
Proof.
  unfold DropCheckArgv.start. rewrite argv_with_input.
  unfold mbind, M_bind. cbn [fst snd app].
  destruct (DropCheckArgv.run env _) as [tr r]. reflexivity.
Qed.

(** X16. With fewer than three entries in [process.argv] the variant
    writes its usage line to the error channel and ends the process with
    status 1, doing nothing else.  With three or more, the third entry is
    the input path even when it is empty, the fourth, when there is one, is
    the output directory, the entries after it are ignored, and nothing is
    written. *)
Theorem positional_arguments env argv :
  ((length argv < 3)%nat ->
   DropCheckArgv.start env argv
   = ([ConsoleError DropCheckArgv.MSG_USAGE; ProcessExit 1], Exit 1))
  /\ (forall node script p rest,
        argv = node :: script :: p :: rest ->
        DropCheckArgv.constructor argv
        = ([], Ok {| srcM2tsPath := p;
                     dstLogDirPath := head rest;
                     isPostToSlack := false |})).
Proof.
  split.
  - apply argv_start_short.
  - intros node script p rest ->. apply argv_with_input.
Qed.

Lemma positional_arguments_witness :
  DropCheckArgv.start Samples.env_read_error ["node"; "DropCheck.js"]
  = ([ConsoleError DropCheckArgv.MSG_USAGE; ProcessExit 1], Exit 1)
  /\ DropCheckArgv.constructor ["node"; "DropCheck.js"; ""; "/log"; "more"]
     = ([], Ok {| srcM2tsPath := ""; dstLogDirPath := Some "/log";
                  isPostToSlack := false |}).
Proof.
  split.
  - apply (proj1 (positional_arguments Samples.env_read_error
                    ["node"; "DropCheck.js"])).
    cbn. lia.
  - apply (proj2 (positional_arguments Samples.env_read_error
                    ["node"; "DropCheck.js"; ""; "/log"; "more"])
             "node" "DropCheck.js" "" ["/log"; "more"]).
    reflexivity.
Defined.

(** X17. For a non-empty input path, the variant called with the path and
    an optional output directory as its positional arguments does exactly
    what the newer tool does when the same two values come from its options
    and the webhook option is off. *)
Theorem versions_agree_on_positional_input env (node script p : string)
    (rest : list string) :
  p <> "" ->
  DropCheckArgv.start env (node :: script :: p :: rest)
  = DropCheck.main env {| input := Some p; output := head rest; slack := false |}.
Proof.
  intros Hne. rewrite argv_start_run, argv_run_unfold.
  destruct (constructor_accepts_input env
              {| input := Some p; output := head rest; slack := false |} p
              eq_refl Hne) as [_ ->].
  reflexivity.
Qed.

Lemma versions_agree_on_positional_input_witness :
  DropCheckArgv.start (Samples.env_completes Samples.small_result)
    ["node"; "DropCheck.js"; "/rec/a.m2ts"; "/log"]
  = DropCheck.main (Samples.env_completes Samples.small_result)
      Samples.args_with_output.
Proof.
  apply (versions_agree_on_positional_input
           (Samples.env_completes Samples.small_result)
           "node" "DropCheck.js" "/rec/a.m2ts" ["/log"]).
  discriminate.
Defined.

(** The two tools part on an empty input path: the variant goes on with
    it, the newer tool refuses it. *)
Example versions_differ_on_empty_input :
  DropCheckArgv.start Samples.env_no_file ["node"; "DropCheck.js"; ""]
  = ([ConsoleLog MSG_START; LoggerInitialize; CreateReadStream "";
      StatSync ""], Throw "ENOENT")
  /\ DropCheck.main Samples.env_no_file
       {| input := Some ""; output := None; slack := false |}
     = ([ConsoleError MSG_NO_INPUT; ConsoleError MSG_USAGE_1;
         ConsoleError MSG_USAGE_2; ProcessExit 1], Exit 1).
Proof. split; vm_compute; reflexivity. Qed.

(** X18. The variant never makes a request, whatever its arguments and
    surroundings. *)
Theorem argv_variant_never_posts env argv :
  requests (DropCheckArgv.start env argv).1 = []
  /\ bodies (DropCheckArgv.start env argv).1 = [].
Proof.
  destruct argv as [|node [|script [|p rest]]];
    try (rewrite argv_start_short by (cbn; lia); split; reflexivity).
  rewrite argv_start_run, argv_run_unfold.
  cbn [srcM2tsPath dstLogDirPath].
  destruct (run_cases env {| srcM2tsPath := p; dstLogDirPath := head rest;
                             isPostToSlack := false |})
    as [(e0 & Hstat & Hrun) | [(n & err & Hstat & Hs & Hrun)
       | [(n & err & Hstat & Hs & Hr & Hrun)
       | [(n & r & Hstat & Hs & Hr & Hslack & Hrun)
       | (n & r & Hstat & Hs & Hr & Hslack & Hrun)]]]];
    try discriminate Hslack;
    rewrite Hrun; cbn [fst isPostToSlack]; try (split; reflexivity).
  destruct (print_trace r) as (a & b & c & ->).
  unfold requests, bodies. rewrite !omap_app, forget_trace.
  destruct (checker_stop_result env); split; reflexivity.
Qed.

(** With [install()] in front, the two files end the process alike on such
    arguments. *)
Lemma scripts_agree_on_positional_input env (node script p : string)
    (rest : list string) :
  p <> "" ->
  DropCheckArgv.script env (node :: script :: p :: rest)
  = DropCheck.script env {| input := Some p; output := head rest; slack := false |}.
Proof.
  intros Hne. unfold DropCheckArgv.script, DropCheck.script.
  rewrite argv_start_run, argv_run_unfold.
  destruct (constructor_accepts_input env
              {| input := Some p; output := head rest; slack := false |} p
              eq_refl Hne) as [_ ->].
  reflexivity.
Qed.

End DropCheckArgvMore.

(** * Properties of the route that protects a recording *)

Section RecordedProtectFacts.

Import RecordedProtect.

Implicit Types (env : RecordedProtect.Env) (s rest : string) (c : ascii).

Local Ltac bool_cases :=
  repeat match goal with
         | |- context [Z.eqb ?a ?b] => destruct (Z.eqb_spec a b); try lia
         | |- context [Z.leb ?a ?b] => destruct (Z.leb_spec a b); try lia
         end.

(** A first byte that is a sign, a digit or a letter is not white space. *)
Lemma trim_start_visible c rest :
  43 <= code c <= 122 -> trim_start (String c rest) = String c rest.
Proof.
  intros Hc. cbn [trim_start].
  destruct rest as [|c1 [|c2 rest2]]; bool_cases; reflexivity.
Qed.

Lemma digit_value_char (d : N) :
  (d < 10)%N -> digit_value (pretty_N_char d) = Some (Z.of_N d).
Proof.
  intros Hd.
  assert (H : (d = 0 \/ d = 1 \/ d = 2 \/ d = 3 \/ d = 4 \/ d = 5 \/ d = 6
               \/ d = 7 \/ d = 8 \/ d = 9)%N) by lia.
  repeat (destruct H as [->|H]; [reflexivity|]). subst d. reflexivity.
Qed.

Lemma code_char (d : N) : (d < 10)%N -> 48 <= code (pretty_N_char d) <= 57.
Proof.
  intros Hd.
  assert (H : (d = 0 \/ d = 1 \/ d = 2 \/ d = 3 \/ d = 4 \/ d = 5 \/ d = 6
               \/ d = 7 \/ d = 8 \/ d = 9)%N) by lia.
  repeat (destruct H as [->|H]; [vm_compute; split; discriminate|]).
  subst d. vm_compute; split; discriminate.
Qed.

(** Reading the digits that [pretty] writes for [x] gives [x] back. *)
Lemma parse_digits_pretty_go (x : N) :
  (0 < x)%N ->
  forall s, parse_digits None (pretty_N_go x s) = parse_digits (Some (Z.of_N x)) s.
Proof.
  induction (N.lt_wf_0 x) as [x _ IH]. intros Hx s.
  rewrite pretty_N_go_step by exact Hx.
  assert (Hd : (x `mod` 10 < 10)%N) by (apply N.mod_lt; lia).
  destruct (decide (x `div` 10 = 0)%N) as [Hz|Hz].
  - rewrite Hz, pretty_N_go_0. cbn [parse_digits].
    rewrite digit_value_char by exact Hd. cbn [default from_option id].
    do 2 f_equal. pose proof (N.div_mod x 10 ltac:(lia)). lia.
  - rewrite IH; [| apply N.div_lt; lia | apply N.neq_0_lt_0, Hz].
    cbn [parse_digits]. rewrite digit_value_char by exact Hd.
    cbn [default from_option id]. do 2 f_equal.
    pose proof (N.div_mod x 10 ltac:(lia)). lia.
Qed.

(** What [pretty] writes for a positive number starts with a digit. *)
Lemma pretty_go_head (x : N) :
  (0 < x)%N ->
  forall s, exists c rest, pretty_N_go x s = String c rest /\ 48 <= code c <= 57.
Proof.
  induction (N.lt_wf_0 x) as [x _ IH]. intros Hx s.
  rewrite pretty_N_go_step by exact Hx.
  assert (Hd : (x `mod` 10 < 10)%N) by (apply N.mod_lt; lia).
  destruct (decide (x `div` 10 = 0)%N) as [Hz|Hz].
  - rewrite Hz, pretty_N_go_0. eexists _, _. split; [reflexivity|].
    apply code_char, Hd.
  - apply IH; [apply N.div_lt; lia | apply N.neq_0_lt_0, Hz].
Qed.

Lemma pretty_go_app (x : N) :
  (0 < x)%N ->
  forall s t, pretty_N_go x s +:+ t = pretty_N_go x (s +:+ t).
Proof.
  induction (N.lt_wf_0 x) as [x _ IH]. intros Hx s t.
  rewrite (pretty_N_go_step x s), (pretty_N_go_step x (s +:+ t)) by exact Hx.
  destruct (decide (x `div` 10 = 0)%N) as [Hz|Hz].
  - rewrite Hz, !pretty_N_go_0. reflexivity.
  - rewrite IH; [reflexivity | apply N.div_lt; lia | apply N.neq_0_lt_0, Hz].
Qed.

(** [parseInt] of the digits of [x], whatever follows them. *)
Lemma parseInt10_digits (x : N) s :
  (0 < x)%N ->
  parseInt10 (pretty_N_go x s) = Z.mul 1 <$> parse_digits (Some (Z.of_N x)) s.
Proof.
  intros Hx. unfold parseInt10.
  destruct (pretty_go_head x Hx s) as (c & rest & Hs & Hc).
  rewrite Hs, trim_start_visible by lia. rewrite <- Hs.
  assert (H45 : (code c =? 45) = false) by lia.
  assert (H43 : (code c =? 43) = false) by lia.
  rewrite Hs, H45, H43. cbn [fst snd]. rewrite <- Hs.
  rewrite parse_digits_pretty_go by exact Hx. reflexivity.
Qed.

Lemma parseInt10_pretty_N (n : N) : parseInt10 (pretty n) = Some (Z.of_N n).
Proof.
  unfold pretty, pretty_N. destruct (decide (n = 0)%N) as [->|Hn]; [reflexivity|].
  rewrite parseInt10_digits by lia. cbn. f_equal. lia.
Qed.

(** Reading back what the conversion of an integer to a string wrote. *)
Lemma parseInt10_pretty (z : Z) : parseInt10 (pretty z) = Some z.
Proof.
  destruct z as [|p|p].
  - reflexivity.
  - change (pretty (Z.pos p)) with (pretty (N.pos p)).
    rewrite parseInt10_pretty_N. reflexivity.
  - change (pretty (Z.neg p)) with (String "-"%char (pretty (N.pos p))).
    unfold parseInt10.
    rewrite trim_start_visible by (vm_compute; split; discriminate).
    change (code "-" =? 45) with true. cbn [fst snd].
    unfold pretty, pretty_N. rewrite decide_False by discriminate.
    rewrite parse_digits_pretty_go by lia. cbn. f_equal.
Qed.

(** X19. When the path parameter is an integer written in decimal (of a
    size that a number holds exactly), the recorded API model is asked once,
    to protect the recording with that number. *)
Theorem put_reads_decimal_id env (z : Z) :
  - 2 ^ 53 < z < 2 ^ 53 ->
  protect_calls (put env (pretty z)) = [(Some z, true)].
Proof.
  intros _. unfold put. rewrite parseInt10_pretty.
  destruct (changeProtect env (Some z) true); reflexivity.
Qed.

Lemma put_reads_decimal_id_witness :
  protect_calls (put Samples.protect_accepts "1024") = [(Some 1024, true)].
Proof.
  apply (put_reads_decimal_id Samples.protect_accepts 1024). lia.
Defined.

(** X20. The digits at the start of the path parameter decide: when a
    number is followed by a byte that is not a digit, what follows is
    ignored and the recording with that number is protected. *)
Theorem put_ignores_what_follows_the_digits env (n : N) c rest :
  (n < 2 ^ 53)%N ->
  digit_value c = None ->
  protect_calls (put env (pretty n +:+ String c rest)) = [(Some (Z.of_N n), true)].
Proof.
  intros _ Hc.
  assert (H : parseInt10 (pretty n +:+ String c rest) = Some (Z.of_N n)).
  { unfold pretty, pretty_N. destruct (decide (n = 0)%N) as [->|Hn].
    - change ("0" +:+ String c rest) with (String "0"%char (String c rest)).
      unfold parseInt10.
      rewrite trim_start_visible by (vm_compute; split; discriminate).
      change (code "0" =? 45) with false. change (code "0" =? 43) with false.
      cbn [fst snd parse_digits]. change (digit_value "0") with (Some 0).
      cbn [parse_digits]. rewrite Hc. reflexivity.
    - rewrite pretty_go_app by lia.
      change ("" +:+ String c rest) with (String c rest).
      rewrite parseInt10_digits by lia. cbn [parse_digits]. rewrite Hc.
      cbn. f_equal. lia. }
  unfold put. rewrite H.
  destruct (changeProtect env (Some (Z.of_N n)) true); reflexivity.
Qed.

Lemma put_ignores_what_follows_the_digits_witness :
  digit_value "a" = None
  /\ protect_calls (put Samples.protect_accepts "12abc") = [(Some 12, true)].
Proof.
  split; [reflexivity|].
  exact (put_ignores_what_follows_the_digits Samples.protect_accepts 12 "a" "bc"
           eq_refl eq_refl).
Defined.

(** X21. The handler does not check the path parameter: when it is empty or
    starts with a letter, the recorded API model is still asked, with [NaN]
    as the number, and the answer depends on the model alone. *)
Theorem put_passes_NaN_for_non_numeric_id env c rest :
  65 <= code c <= 90 \/ 97 <= code c <= 122 ->
  protect_calls (put env (String c rest)) = [(None, true)]
  /\ protect_calls (put env "") = [(None, true)]
  /\ responses (put env (String c rest))
     = match changeProtect env None true with
       | JS.Fulfilled _ => [ResponseJSON 200 200]
       | JS.Rejected err => [ResponseServerError err]
       end.
Proof.
  intros Hc.
  assert (H : parseInt10 (String c rest) = None).
  { unfold parseInt10. rewrite trim_start_visible by lia.
    assert (H45 : (code c =? 45) = false) by lia.
    assert (H43 : (code c =? 43) = false) by lia.
    rewrite H45, H43. cbn [fst snd parse_digits]. unfold digit_value.
    assert (Hd : (48 <=? code c) && (code c <=? 57) = false).
    { destruct (Z.leb_spec 48 (code c)), (Z.leb_spec (code c) 57);
        try reflexivity; lia. }
    rewrite Hd. reflexivity. }
  unfold put. rewrite H. change (parseInt10 "") with (@None Z).
  destruct (changeProtect env None true); repeat split.
Qed.

Lemma put_passes_NaN_for_non_numeric_id_witness :
  protect_calls (put Samples.protect_accepts "abc") = [(None, true)]
  /\ protect_calls (put Samples.protect_accepts "") = [(None, true)]
  /\ responses (put Samples.protect_accepts "abc") = [ResponseJSON 200 200].
Proof.
  apply (put_passes_NaN_for_non_numeric_id Samples.protect_accepts "a" "bc").
  right. vm_compute. split; discriminate.
Defined.

(** X22. Every request gets one answer: status 200 with code 200 when the
    recorded API model fulfils its promise, the server error with the
    message of the error when it rejects.  The model is asked once, always
    to protect, never to unprotect. *)
Theorem put_answers_once env s :
  (responses (put env s) = [ResponseJSON 200 200]
   /\ (exists u, changeProtect env (parseInt10 s) true = JS.Fulfilled u)
   \/ exists err,
       responses (put env s) = [ResponseServerError err]
       /\ changeProtect env (parseInt10 s) true = JS.Rejected err)
  /\ protect_calls (put env s) = [(parseInt10 s, true)].
Proof.
  unfold put.
  destruct (changeProtect env (parseInt10 s) true) as [u|err] eqn:H.
  - split; [left; split; [reflexivity | exists u; reflexivity] | reflexivity].
  - split; [right; exists err; split; reflexivity | reflexivity].
Qed.

Example parseInt10_samples :
  parseInt10 "12abc" = Some 12 /\ parseInt10 "  -42" = Some (-42)
  /\ parseInt10 "0x1f" = Some 0 /\ parseInt10 "- 7" = None
  /\ parseInt10 "007" = Some 7.
Proof. vm_compute. repeat split. Qed.

End RecordedProtectFacts.

(** * Properties of the continuity rules *)

Section StreamIntegrityFacts.

Import StreamIntegrity.

Implicit Types (table : gmap Z ChannelIntegrityState) (p c : Z) (n m k : nat).

(** A frame that follows its predecessor is not charged. *)
Lemma charge_successor c : charge ((c - 1) mod 16) (c mod 16) = 0.
Proof.
  unfold charge.
  destruct (Z.eqb_spec (c mod 16) (((c - 1) mod 16 + 1) mod 16)) as [_|H];
    [reflexivity|].
  exfalso. apply H. rewrite Zplus_mod_idemp_l. f_equal. lia.
Qed.

(** The charge when [k] frames are missing before the observed one. *)
Lemma charge_gap c (k : Z) :
  0 <= k ->
  charge ((c - 1) mod 16) ((c + k) mod 16)
  = if k mod 16 =? 15 then 0 else k mod 16.
Proof.
  intros Hk. unfold charge.
  destruct (Z.eqb_spec ((c + k) mod 16) (((c - 1) mod 16 + 1) mod 16));
    destruct (Z.eqb_spec ((c + k) mod 16) ((c - 1) mod 16));
    destruct (Z.eqb_spec (k mod 16) 15);
    Z.div_mod_to_equations; lia.
Qed.

(** A repeated frame is not charged. *)
Lemma charge_duplicate (e : Z) : charge e e = 0.
Proof.
  unfold charge. rewrite Z.eqb_refl.
  destruct (e =? (e + 1) mod 16); reflexivity.
Qed.

Lemma step_payload_frame table p c st :
  p <> NULL_PID ->
  table !! p = Some st ->
  step table (payload_frame p c)
  = <[p := {| expected := Some (c mod 16);
              error := error st;
              drop := drop st
                      + match expected st with
                        | None => 0
                        | Some e => charge e (c mod 16)
                        end;
              scrambling := scrambling st |}]> table.
Proof.
  intros Hp Hst. unfold step. cbn [pid payload_frame].
  destruct (Z.eqb_spec p NULL_PID) as [|_]; [contradiction|].
  rewrite Hst. reflexivity.
Qed.

Lemma step_first_frame p c :
  p <> NULL_PID ->
  step ∅ (payload_frame p c)
  = {[p := {| expected := Some (c mod 16); error := 0; drop := 0;
              scrambling := 0 |}]}.
Proof.
  intros Hp. unfold step. cbn [pid payload_frame].
  destruct (Z.eqb_spec p NULL_PID) as [|_]; [contradiction|].
  rewrite lookup_empty. reflexivity.
Qed.

(** Frames that arrive in sequence leave the drop count as it is. *)
Lemma consecutive_frames_not_charged p n :
  forall c table st,
    p <> NULL_PID ->
    table !! p = Some st ->
    expected st = Some ((c - 1) mod 16) ->
    exists st',
      foldl step table (consecutive p c n) !! p = Some st'
      /\ drop st' = drop st
      /\ expected st' = Some ((c + Z.of_nat n - 1) mod 16).
Proof.
  induction n as [|n IH]; intros c table st Hp Hst He.
  - exists st. cbn [consecutive foldl]. repeat split; [exact Hst|].
    rewrite He. do 2 f_equal. lia.
  - cbn [consecutive foldl]. rewrite (step_payload_frame _ _ _ st Hp Hst), He.
    rewrite charge_successor, Z.add_0_r.
    match goal with |- context [<[p := ?s]> table] => set (st1 := s) end.
    assert (He1 : expected st1 = Some ((c + 1 - 1) mod 16)).
    { subst st1. cbn [expected]. do 2 f_equal. lia. }
    destruct (IH (c + 1) (<[p := st1]> table) st1 Hp
                (lookup_insert_eq _ _ _) He1) as (st' & H1 & H2 & H3).
    exists st'. split; [exact H1|]. split; [exact H2|].
    rewrite H3. do 2 f_equal. lia.
Qed.

(** The drop count of a channel after a run of frames, a gap of [k]
    frames, and another run. *)
Lemma drop_count_with_gap p c n k m :
  p <> NULL_PID -> (0 < n)%nat -> (0 < m)%nat ->
  drop_count (analyze (with_gap p c n k m)) p
  = if Z.of_nat k mod 16 =? 15 then 0 else Z.of_nat k mod 16.
Proof.
  intros Hp Hn Hm. unfold drop_count, analyze, with_gap.
  destruct n as [|n]; [lia|]. destruct m as [|m]; [lia|].
  rewrite foldl_app. cbn [consecutive foldl].
  rewrite (step_first_frame _ _ Hp).
  match goal with |- context [{[p := ?s]}] => set (st0 := s) end.
  assert (He0 : expected st0 = Some ((c + 1 - 1) mod 16)).
  { subst st0. cbn [expected]. do 2 f_equal. lia. }
  destruct (consecutive_frames_not_charged p n (c + 1) {[p := st0]} st0 Hp
              (lookup_singleton_eq _ _) He0) as (st1 & H1 & H2 & H3).
  rewrite (step_payload_frame _ _ _ st1 Hp H1), H3.
  match goal with
  | |- context [<[p := ?s]> ?t] => set (st1' := s); set (tb := t)
  end.
  assert (He1 : expected st1'
                = Some ((c + Z.of_nat (S n) + Z.of_nat k + 1 - 1) mod 16)).
  { subst st1'. cbn [expected]. do 2 f_equal. lia. }
  destruct (consecutive_frames_not_charged p m
              (c + Z.of_nat (S n) + Z.of_nat k + 1) (<[p := st1']> tb) st1' Hp
              (lookup_insert_eq _ _ _) He1) as (st2 & H4 & H5 & _).
  rewrite H4. cbn [from_option id]. rewrite H5. subst st1'. cbn [drop].
  rewrite H2. subst st0. cbn [drop].
  replace (c + 1 + Z.of_nat n - 1) with (c + Z.of_nat (S n) - 1) by lia.
  rewrite charge_gap by lia. lia.
Qed.

(** The drop count of a channel when one frame arrives twice. *)
Lemma drop_count_with_duplicate p c n m :
  p <> NULL_PID -> (0 < n)%nat ->
  drop_count (analyze (with_duplicate p c n m)) p = 0.
Proof.
  intros Hp Hn. unfold drop_count, analyze, with_duplicate.
  destruct n as [|n]; [lia|].
  rewrite foldl_app. cbn [consecutive foldl].
  rewrite (step_first_frame _ _ Hp).
  match goal with |- context [{[p := ?s]}] => set (st0 := s) end.
  assert (He0 : expected st0 = Some ((c + 1 - 1) mod 16)).
  { subst st0. cbn [expected]. do 2 f_equal. lia. }
  destruct (consecutive_frames_not_charged p n (c + 1) {[p := st0]} st0 Hp
              (lookup_singleton_eq _ _) He0) as (st1 & H1 & H2 & H3).
  rewrite (step_payload_frame _ _ _ st1 Hp H1), H3.
  match goal with
  | |- context [<[p := ?s]> ?t] => set (st1' := s); set (tb := t)
  end.
  assert (He1 : expected st1' = Some ((c + Z.of_nat (S n) - 1) mod 16)).
  { subst st1'. cbn [expected]. reflexivity. }
  destruct (consecutive_frames_not_charged p m (c + Z.of_nat (S n))
              (<[p := st1']> tb) st1' Hp
              (lookup_insert_eq _ _ _) He1) as (st2 & H4 & H5 & _).
  rewrite H4. cbn [from_option id]. rewrite H5. subst st1'. cbn [drop].
  rewrite H2. subst st0. cbn [drop].
  replace (c + 1 + Z.of_nat n - 1) with (c + Z.of_nat (S n) - 1) by lia.
  rewrite charge_duplicate. lia.
Qed.


(** When 15 frames are missing, the second frame looks like a duplicate
    of the first. *)
Example drop_count_at_15_missing_frames :
  drop_count (analyze (with_gap 256 0 1 15 1)) 256 = 0.
Proof. vm_compute. reflexivity. Qed.

(** *** Streams in general *)














(** A frame whose adaptation field asserts a discontinuity is not charged,
    whatever the gap before it, and reseeds the counter. *)
Lemma discontinuity_not_charged (f : Frame) (st : ChannelIntegrityState) :
  adaptation_field_control f = 3 -> discontinuity_indicator f = true ->
  expected (track f st) = Some (continuity_counter f)
  /\ drop (track f st) = drop st.
Proof.
  intros Hafc Hdi. unfold track, carries_payload, discontinuity.
  rewrite Hafc, Hdi. cbn. destruct (expected st); split; (reflexivity || lia).
Qed.

(** Channel 256 restarts at 9 after 15 with the discontinuity indicator:
    no drop; the same frames without the indicator give the 9 drops of
    the gap. *)
Example discontinuity_sample :
  drop_count (analyze Samples.stream_with_discontinuity) 256 = 0
  /\ drop_count
       (analyze [Samples.sent_14; Samples.sent_15;
                 Build_Frame 256 false 0 3 9 false;
                 Build_Frame 256 false 0 1 10 false]) 256 = 9.
Proof. vm_compute. split; reflexivity. Qed.

(** Only the two low bits of adaptation-field control 3 and 1 make a
    payload: the frames of [Samples.stream_with_gap] with an adaptation
    field and a payload are tracked, its frame with an adaptation field
    only is not. *)
Example payload_frames_sample :
  payload_frames_of 256 Samples.stream_with_gap
  = [Samples.sent_14; Samples.sent_15; Samples.sent_3; Samples.sent_4]
  /\ carries_payload Samples.sent_15 = true
  /\ carries_payload Samples.adaptation_only = false
  /\ analyze Samples.stream_with_gap
     = {[ 256 := {| expected := Some 4; error := 1; drop := 3; scrambling := 2 |};
          257 := {| expected := Some 12; error := 0; drop := 2; scrambling := 0 |} ]}.
Proof. vm_compute. repeat split. Qed.



End StreamIntegrityFacts.
